(** * Audio-reactive visualizer: spectral queries, beat detection and
      per-frame animation state, embedded from the Python sources.

    Floating-point numbers are idealised as exact rationals ([Q]); the
    trigonometric ring/waveform distortions live over the reals ([R]).
    Module [Ieee] keeps NaN and the infinities beside the rationals, to
    follow silent audio from the loader to the volume intensity, where a
    division by zero yields NaN instead of an exception.
    Python exceptions are modelled with [option]: [None] stands for a raised
    exception ([IndexError], [ValueError], [ZeroDivisionError]).            *)

From Stdlib Require Import QArith Qround Qabs Qminmax Qpower Reals Psatz ZArith List.
From stdpp Require Import base option list gmap strings.

Local Open Scope Q_scope.

(** ** Python built-ins used by the sources *)
Module Py.

(** [a < b] on floats. *)
Definition lt (a b : Q) : bool := negb (Qle_bool b a).

(** [int(x)]: truncation toward zero. *)
Definition int (x : Q) : Z := if Qle_bool 0 x then Qfloor x else Qceiling x.

(** [x % m] on floats: the result takes the sign of the divisor. *)
Definition fmod (x m : Q) : Q := x - m * inject_Z (Qfloor (x / m)).

(** [min(a, b)]: the first argument wins ties. *)
Definition min (a b : Q) : Q := if lt b a then b else a.

(** Position selected by the subscript [i] in a sequence (or array axis)
    of length [n]; negative subscripts count from the end, anything else
    out of range raises [IndexError]. *)
Definition index (i : Z) (n : nat) : option nat :=
  if ((0 <=? i) && (i <? Z.of_nat n))%Z then Some (Z.to_nat i)
  else if ((i <? 0) && (- Z.of_nat n <=? i))%Z then Some (Z.to_nat (i + Z.of_nat n))
  else None.

(** [l[i]]. *)
Definition getitem {A} (l : list A) (i : Z) : option A :=
  k ← index i (length l); l !! k.

(** Truth value of an optional string: [None] and the empty string are
    false. *)
Definition truthy (text : option string) : bool :=
  match text with
  | Some t => negb (String.eqb t "")
  | None => false
  end.

End Py.

(** ** NumPy primitives used by the sources *)
Module Np.

(** [np.sum] of a one-dimensional array. *)
Definition sum (l : list Q) : Q := foldr Qplus 0 l.

(** [np.mean] of a non-empty one-dimensional array. *)
Definition mean (l : list Q) : Q := sum l / inject_Z (Z.of_nat (length l)).

(** [np.max]; raises [ValueError] on an empty array. *)
Definition max (l : list Q) : option Q :=
  match l with
  | [] => None
  | x :: xs => Some (foldl (fun m y => if Py.lt m y then y else m) x xs)
  end.

(** [data[mask]] with a boolean mask: keeps the entries whose mask bit is
    set; the two shapes must agree, otherwise [IndexError]. *)
Fixpoint select {A} (mask : list bool) (data : list A) : option (list A) :=
  match mask, data with
  | [], [] => Some []
  | b :: mask', x :: data' =>
      rest ← select mask' data';
      Some (if b then x :: rest else rest)
  | _, _ => None
  end.

(** [np.zeros(n)]; a negative size raises [ValueError]. *)
Definition zeros (n : Z) : option (list Q) :=
  if (n <? 0)%Z then None else Some (replicate (Z.to_nat n) 0).

(** [np.linspace(start, stop, num)] with the default [endpoint=True]:
    sample [i] is [i * step + start] with [step = (stop - start) / (num - 1)]
    (just [start] when [num] is 1), and for [num > 1] the last sample is
    then overwritten with [stop].  A negative [num] raises [ValueError]. *)
Definition linspace (start stop : Q) (num : Z) : option (list Q) :=
  if (num <? 0)%Z then None
  else
    let n := Z.to_nat num in
    let div := inject_Z (num - 1) in
    let delta := stop - start in
    Some (map (fun i : nat =>
                 if (1 <? n)%nat && (i =? n - 1)%nat then stop
                 else if (1 <? n)%nat then inject_Z (Z.of_nat i) * (delta / div) + start
                 else inject_Z (Z.of_nat i) * delta + start)
              (seq 0 n)).

(** [a.astype(int)]. *)
Definition astype_int (a : list Q) : list Z := map Py.int a.

(** [data[indices]] with an integer index array. *)
Definition take {A} (data : list A) (indices : list Z) : option (list A) :=
  mapM (Py.getitem data) indices.

(** [dst[mask] = vals]: the entries of [vals] are written, in order, into
    the positions of [dst] whose mask bit is set.  The mask must have the
    shape of [dst] and [vals] exactly as many entries as the mask has set
    bits. *)
Fixpoint put {A} (dst : list A) (mask : list bool) (vals : list A) : option (list A) :=
  match dst, mask with
  | [], [] => match vals with [] => Some [] | _ => None end
  | d :: dst', b :: mask' =>
      if b then
        match vals with
        | v :: vals' => rest ← put dst' mask' vals'; Some (v :: rest)
        | [] => None
        end
      else rest ← put dst' mask' vals; Some (d :: rest)
  | _, _ => None
  end.

(** [x.astype(np.uint8)] for one value: truncation toward zero into an
    8-bit unsigned channel. *)
Definition astype_uint8 (x : Q) : Z := (Py.int x mod 256)%Z.

End Np.

(** ** NumPy floats with their non-finite values

    NumPy divides by zero without raising: the result is an infinity or
    NaN (and a warning).  This module keeps those values.  Finite values
    stay exact rationals, and the sign of a zero is not recorded: a zero
    divisor counts as [+0.0], which is what an integer 0 converts to. *)
Module Ieee.

Inductive t :=
| Fin (q : Q)
| Inf (negative : bool)
| NaN.

Definition is_nan (a : t) : bool :=
  match a with NaN => true | _ => false end.

(** [a + b]. *)
Definition add (a b : t) : t :=
  match a, b with
  | NaN, _ | _, NaN => NaN
  | Inf n, Inf m => if Bool.eqb n m then Inf n else NaN
  | Inf n, Fin _ | Fin _, Inf n => Inf n
  | Fin p, Fin q => Fin (p + q)
  end.

(** [a / b]: [0 / 0] is NaN, any other finite value over zero is an
    infinity. *)
Definition div (a b : t) : t :=
  match a, b with
  | NaN, _ | _, NaN => NaN
  | Inf _, Inf _ => NaN
  | Inf n, Fin q => Inf (xorb n (Py.lt q 0))
  | Fin _, Inf _ => Fin 0
  | Fin p, Fin q =>
      if Qeq_bool q 0 then
        if Qeq_bool p 0 then NaN else Inf (Py.lt p 0)
      else Fin (p / q)
  end.

(** [a < b]: every comparison with NaN is false. *)
Definition lt (a b : t) : bool :=
  match a, b with
  | NaN, _ | _, NaN => false
  | Inf n, Inf m => n && negb m
  | Inf n, Fin _ => n
  | Fin _, Inf m => negb m
  | Fin p, Fin q => Py.lt p q
  end.

(** [np.sum] of a one-dimensional array. *)
Definition sum (l : list t) : t := foldr add (Fin 0) l.

(** [np.mean] of a non-empty one-dimensional array. *)
Definition mean (l : list t) : t :=
  div (sum l) (Fin (inject_Z (Z.of_nat (length l)))).

(** [np.max]: a NaN anywhere in the array is the result; raises
    [ValueError] on an empty array. *)
Definition max (l : list t) : option t :=
  match l with
  | [] => None
  | x :: xs =>
      Some (foldl (fun m y =>
                     if is_nan m then m
                     else if is_nan y then y
                     else if lt m y then y else m)
                  x xs)
  end.

End Ieee.

(** ** config.py *)
Module Band.
(** One entry of [FREQUENCY_BANDS]: a dictionary whose ['saturation'] and
    ['brightness'] keys are absent until a palette is applied. *)
Record t := mk {
  name : string;
  min : Q;
  max : Q;
  hue_offset : Q;
  saturation : option Q;
  brightness : option Q
}.
End Band.

Module Palette.
Record t := mk {
  name : string;
  colors : list Q;
  saturation : Q;
  brightness : Q
}.
End Palette.

Module Config.

Definition band (n : string) (lo hi hue : Q) : Band.t :=
  Band.mk n lo hi hue None None.

Definition FREQUENCY_BANDS : list Band.t :=
  [ band "Sub-Bass" 20 40 0;
    band "Bass" 40 80 45;
    band "Low-Bass" 80 100 90;
    band "Low-Mid" 100 200 135;
    band "Mid" 200 400 180;
    band "Upper-Mid" 400 600 225;
    band "High-Mid" 600 800 270;
    band "Presence" 800 1000 315 ].

Definition COLOR_PALETTES : gmap string Palette.t :=
  list_to_map
    [ ("rainbow"%string, Palette.mk "Rainbow" [0; 45; 90; 135; 180; 225; 270; 315] 1.0 1.0);
      ("spring"%string, Palette.mk "Spring" [80; 100; 120; 140; 280; 300; 320; 340] 0.8 0.95);
      ("summer"%string, Palette.mk "Summer" [30; 45; 60; 180; 200; 220; 240; 260] 1.0 1.0);
      ("autumn"%string, Palette.mk "Autumn" [0; 15; 30; 35; 40; 25; 20; 10] 0.9 0.85);
      ("winter"%string, Palette.mk "Winter" [180; 200; 220; 240; 260; 200; 190; 210] 0.7 0.9);
      ("ice"%string, Palette.mk "Ice" [180; 190; 200; 210; 220; 200; 195; 205] 0.5 1.0);
      ("fire"%string, Palette.mk "Fire" [0; 10; 20; 30; 40; 25; 15; 35] 1.0 0.95);
      ("water"%string, Palette.mk "Water" [160; 170; 180; 190; 150; 165; 175; 185] 0.8 0.9);
      ("earth"%string, Palette.mk "Earth" [25; 30; 35; 40; 45; 50; 55; 60] 0.6 0.7) ].

Definition BASE_ROTATION_SPEED : Q := 0.001.
Definition VOLUME_ROTATION_MULTIPLIER : Q := 0.015.
Definition HUE_SHIFT_BASE : Q := 0.5.

Definition TRAIL_FADE_FACTOR : Q := 0.85.
Definition FADE_DURATION_SECONDS : Q := 2.0.

End Config.

(** ** audio_processor.py *)
Module AudioProcessor.

(** The analysis result kept by an [AudioProcessor]: the bin frequencies
    and the magnitude array, indexed [magnitude[bin][frame]];
    [n_frames] is [magnitude.shape[1]]. *)
Record t := mk {
  frequencies : list Q;
  magnitude : list (list Q);
  n_frames : nat
}.

(** [magnitude[:, frame_idx]]. *)
Definition column (self : t) (frame_idx : Z) : option (list Q) :=
  k ← Py.index frame_idx (n_frames self);
  mapM (fun row : list Q => row !! k) (magnitude self).

(** The guard at the head of every per-frame query. *)
Definition clamp (self : t) (frame_idx : Z) : Z :=
  if (Z.of_nat (n_frames self) <=? frame_idx)%Z
  then (Z.of_nat (n_frames self) - 1)%Z else frame_idx.

(** [(frequencies >= lo) & (frequencies <= hi)]. *)
Definition band_mask (self : t) (lo hi : Q) : list bool :=
  map (fun f => Qle_bool lo f && Qle_bool f hi) (frequencies self).

Definition get_band_values (self : t) (frame_idx : Z) (bands : list Band.t)
  : option (list Q) :=
  let frame_idx := clamp self frame_idx in
  frame_data ← column self frame_idx;
  mapM (fun band =>
          let mask := band_mask self (Band.min band) (Band.max band) in
          band_data ← Np.select mask frame_data;
          Some (if (0 <? length band_data)%nat then Np.mean band_data else 0))
       bands.

Definition get_band_waveform (self : t) (frame_idx band_idx : Z)
    (bands : list Band.t) (points : Z) : option (list Q) :=
  let frame_idx := clamp self frame_idx in
  band ← Py.getitem bands band_idx;
  frame_data ← column self frame_idx;
  let mask := band_mask self (Band.min band) (Band.max band) in
  band_data ← Np.select mask frame_data;
  if (length band_data =? 0)%nat then Np.zeros points
  else
    lin ← Np.linspace 0 (inject_Z (Z.of_nat (length band_data)) - 1) points;
    let indices := Np.astype_int lin in
    waveform ← Np.take band_data indices;
    gmax ← Np.max (concat (magnitude self));
    let max_val := if Py.lt 0 gmax then gmax else 1 in
    Some (map (fun w => w / max_val) waveform).

End AudioProcessor.

(** ** beat_detector.py *)
Module BeatDetector.

Record t := mk {
  prev_energy : Q;
  beat_intensity : Q
}.

(** [__init__]. *)
Definition init : t := mk 0 0.

(** [detect_beat(frame_idx, frequencies, magnitude)]; the two arrays are
    the ones held by the audio processor [ap].  Returns the updated
    detector and the returned intensity. *)
Definition detect_beat (self : t) (frame_idx : Z) (ap : AudioProcessor.t)
  : option (t * Q) :=
  let frame_idx := AudioProcessor.clamp ap frame_idx in
  frame_data ← AudioProcessor.column ap frame_idx;
  let bass_mask := AudioProcessor.band_mask ap 20 250 in
  let low_mid_mask := AudioProcessor.band_mask ap 250 1000 in
  bass_data ← Np.select bass_mask frame_data;
  low_mid_data ← Np.select low_mid_mask frame_data;
  let bass_energy := Np.sum bass_data in
  let low_mid_energy := Np.sum low_mid_data in
  let total_energy := bass_energy + low_mid_energy in
  let energy_change := total_energy - prev_energy self in
  let max_energy :=
    Np.sum (concat (AudioProcessor.magnitude ap))
    / inject_Z (Z.of_nat (AudioProcessor.n_frames ap)) in
  let threshold := max_energy * 0.3 in
  let beat_intensity' :=
    if Py.lt threshold energy_change then
      (* NumPy scalars: a positive value over zero is [inf] (a warning, no
         exception), and [min(1.0, inf)] is [1.0]. *)
      if Qeq_bool (threshold * 2) 0 then 1.0
      else Py.min 1.0 (energy_change / (threshold * 2))
    else beat_intensity self * 0.7 in
  Some (mk total_energy beat_intensity', beat_intensity').

(** Successive calls, one per frame index, threading the detector. *)
Fixpoint run (self : t) (frames : list Z) (ap : AudioProcessor.t)
  : option (t * list Q) :=
  match frames with
  | [] => Some (self, [])
  | f :: frames' =>
      '(self1, out) ← detect_beat self f ap;
      '(self2, outs) ← run self1 frames' ap;
      Some (self2, out :: outs)
  end.

End BeatDetector.

(** One entry of [EffectsRenderer.stars]. *)
Module Star.
Record t := mk {
  x : R;
  y : R;
  z : R;
  size : Z
}.
End Star.

(** ** effects.py *)
Module Effects.

Definition hsv_to_rgb (h s v : Q) : Z * Z * Z :=
  let h := Py.fmod h 360 in
  let c := v * s in
  let x := c * (1 - Qabs (Py.fmod (h / 60) 2 - 1)) in
  let m := v - c in
  let '(r, g, b) :=
    if Py.lt h 60 then (c, x, 0)
    else if Py.lt h 120 then (x, c, 0)
    else if Py.lt h 180 then (0, c, x)
    else if Py.lt h 240 then (0, x, c)
    else if Py.lt h 300 then (x, 0, c)
    else (c, 0, x) in
  let r := Py.int (Py.min 255 ((r + m) * 255 * 1.2)) in
  let g := Py.int (Py.min 255 ((g + m) * 255 * 1.2)) in
  let b := Py.int (Py.min 255 ((b + m) * 255 * 1.2)) in
  (r, g, b).

(** [draw_starfield]: the core alpha of a star of depth [z]. *)
Definition star_brightness (z : Q) : Z := Py.int (150 + z * 50).

(** [draw_starfield]: alpha of glow ring [glow]. *)
Definition star_glow_alpha (brightness glow : Z) : Z :=
  Py.int (inject_Z brightness * 0.3 * (1 - inject_Z glow / 3)).

(** [draw_starfield]: the alphas drawn for one star, in drawing order:
    glow rings 3, 2, 1, then the core. *)
Definition star_alphas (z : Q) : list Z :=
  let brightness := star_brightness z in
  map (star_glow_alpha brightness) [3; 2; 1]%Z ++ [brightness].

(** [draw_waveforms_with_glow]: [self.height // len(bands)]. *)
Definition band_height (height : Z) (n_bands : nat) : option Z :=
  if (n_bands =? 0)%nat then None else Some (height / Z.of_nat n_bands)%Z.

(** [draw_waveforms_with_glow]: vertical centre of band [band_idx]. *)
Definition center_y (band_idx : nat) (band_height : Z) : Q :=
  (inject_Z (Z.of_nat band_idx) + 0.5) * inject_Z band_height.

(** [draw_waveforms_with_glow]:
    [1.0 + (band_idx / (len(bands) - 1)) * 2.0]. *)
Definition sensitivity (band_idx n_bands : nat) : option Q :=
  if (Z.of_nat n_bands - 1 =? 0)%Z then None
  else Some (1.0 + (inject_Z (Z.of_nat band_idx) / inject_Z (Z.of_nat n_bands - 1)) * 2.0).

(** [draw_waveforms_with_glow]: the per-band parameters computed by the
    band loop, in band order: centre line, base hue and sensitivity.  The
    two integer divisions raise [ZeroDivisionError] on a zero divisor. *)
Definition waveform_bands (height : Z) (bands : list Band.t) (hue_offset : Q)
  : option (list (Q * Q * Q)) :=
  band_height ← band_height height (length bands);
  mapM (fun '(band_idx, band) =>
          let center_y := center_y band_idx band_height in
          let base_hue := Py.fmod (hue_offset + Band.hue_offset band) 360 in
          sensitivity ← sensitivity band_idx (length bands);
          Some (center_y, base_hue, sensitivity))
       (zip (seq 0 (length bands)) bands).

(** [draw_waveforms_with_glow]: the x coordinate of sample [i] of a waveform
    of [len] samples, [int((i / len(waveform)) * self.width)]. *)
Definition point_x (i len : nat) (width : Z) : Z :=
  Py.int ((inject_Z (Z.of_nat i) / inject_Z (Z.of_nat len)) * inject_Z width).

(** [draw_cover_and_rings]: radius of ring [r]. *)
Definition ring_size (base_size r : Z) (volume_intensity beat_intensity : Q) : Z :=
  let base_ring_size := inject_Z base_size * (0.4 + inject_Z r * 0.2) in
  let beat_expansion := beat_intensity * 80 in
  let volume_expansion := volume_intensity * 0.5 * base_ring_size in
  Py.int (base_ring_size + beat_expansion + volume_expansion).

(** [draw_cover_and_rings]: outline width of the rings. *)
Definition line_width (volume_intensity beat_intensity : Q) : Z :=
  Py.int (3 + volume_intensity * 4 + beat_intensity * 6).

(** [draw_cover_and_rings]: alpha of glow pass [glow] of a ring. *)
Definition ring_glow_alpha (beat_intensity : Q) (glow : Z) : Z :=
  Py.int ((200 + beat_intensity * 55) * (1 - inject_Z glow / 8)).

(** [draw_text_overlay], up to the two alphas handed to the drawing calls:
    returns the updated [text_fade_history] (the list is mutated in place
    by the source) and, when the text is drawn, [(shadow_alpha, text_alpha)]. *)
Definition draw_text_overlay (text : option string)
    (beat_intensity volume_intensity : Q) (text_fade_history : list Q)
  : list Q * option (Z * Z) :=
  if negb (Py.truthy text) then (text_fade_history, None)
  else
    let text_fade_history := text_fade_history ++ [volume_intensity] in
    let text_fade_history :=
      if (60 <? length text_fade_history)%nat then drop 1 text_fade_history
      else text_fade_history in
    let avg_recent_volume :=
      if (0 <? length text_fade_history)%nat then Np.mean text_fade_history else 0 in
    let base_alpha := 0.3 + (avg_recent_volume * 0.7) in
    let beat_boost := beat_intensity * 0.2 in
    let alpha := Py.min 1.0 (base_alpha + beat_boost) in
    let shadow_alpha := Py.int (alpha * 180) in
    let text_alpha := Py.int (alpha * 255) in
    (text_fade_history, Some (shadow_alpha, text_alpha)).

Local Open Scope R_scope.

(** [int(x)] on a real argument: truncation toward zero. *)
Definition Rint (x : R) : Z :=
  if Rle_dec 0 x then Int_part x else (- Int_part (- x))%Z.

(** The [distortion] of the ['x'] and ['y'] ring modes in
    [draw_cover_and_rings]. *)
Definition ring_distortion (rotation : R) : R :=
  0.6 + 0.4 * cos (rotation * 2).

(** [(shape_width, shape_height)] of one ring in [draw_cover_and_rings]. *)
Definition ring_shape (ring_rotation : string) (ring_size : Z) (rotation : R)
  : Z * Z :=
  if String.eqb ring_rotation "x" then
    let distortion := ring_distortion rotation in
    (ring_size, Rint (IZR ring_size * distortion))
  else if String.eqb ring_rotation "y" then
    let distortion := ring_distortion rotation in
    (Rint (IZR ring_size * distortion), ring_size)
  else (ring_size, ring_size).

(** [update_starfield] for one star.  [math.atan2] is taken as a parameter;
    the random draws of one reseeding are passed as [(randn, randn, rand)].
    The three stages of the loop body follow. *)

(** "Apply rotation if enabled". *)
Definition rotate_star (atan2 : R -> R -> R) (speed center_x center_y : R)
    (rotation_mode : string) (star : Star.t) : Star.t :=
  if String.eqb rotation_mode "cw" then
    let angle := atan2 (Star.y star - center_y) (Star.x star - center_x) in
    let angle := angle - speed * 0.01 * Star.z star in
    let distance :=
      sqrt ((Star.x star - center_x) ^ 2 + (Star.y star - center_y) ^ 2) in
    Star.mk (center_x + distance * cos angle) (center_y + distance * sin angle)
            (Star.z star) (Star.size star)
  else if String.eqb rotation_mode "ccw" then
    let angle := atan2 (Star.y star - center_y) (Star.x star - center_x) in
    let angle := angle + speed * 0.01 * Star.z star in
    let distance :=
      sqrt ((Star.x star - center_x) ^ 2 + (Star.y star - center_y) ^ 2) in
    Star.mk (center_x + distance * cos angle) (center_y + distance * sin angle)
            (Star.z star) (Star.size star)
  else star.

(** "Move stars outward from center". *)
Definition push_star (speed center_x center_y : R) (star : Star.t) : Star.t :=
  let dx := Star.x star - center_x in
  let dy := Star.y star - center_y in
  let distance := sqrt (dx * dx + dy * dy) in
  if Rlt_dec 0 distance then
    Star.mk (Star.x star + (dx / distance) * speed * Star.z star)
            (Star.y star + (dy / distance) * speed * Star.z star)
            (Star.z star) (Star.size star)
  else star.

(** The test of "Wrap around edges". *)
Definition off_canvas (width height : Z) (star : Star.t) : bool :=
  if Rlt_dec (Star.x star) 0 then true
  else if Rlt_dec (IZR width) (Star.x star) then true
  else if Rlt_dec (Star.y star) 0 then true
  else if Rlt_dec (IZR height) (Star.y star) then true
  else false.

Definition update_star (atan2 : R -> R -> R) (width height : Z)
    (volume_intensity : R) (rotation_mode : string) (draws : R * R * R)
    (star : Star.t) : Star.t :=
  let speed := 0.5 + volume_intensity * 5.5 in
  let center_x := IZR width / 2 in
  let center_y := IZR height / 2 in
  let star := rotate_star atan2 speed center_x center_y rotation_mode star in
  let star := push_star speed center_x center_y star in
  if off_canvas width height star then
    let '(randn1, randn2, rand) := draws in
    Star.mk (center_x + randn1 * 50) (center_y + randn2 * 50) (rand * 2)
            (Star.size star)
  else star.

(** [update_starfield]: every star in turn; star number [i] of the pool
    uses the draws [draws i] if it has to be reseeded. *)
Definition update_starfield (atan2 : R -> R -> R) (width height : Z)
    (volume_intensity : R) (rotation_mode : string) (draws : nat -> R * R * R)
    (stars : list Star.t) : list Star.t :=
  imap (fun i star =>
          update_star atan2 width height volume_intensity rotation_mode
            (draws i) star)
       stars.

End Effects.

(** ** visualizer.py *)
Module Visualizer.

(** [_setup_bands]: the frequency bands with the palette applied. *)
Definition _setup_bands (color_palette : string) : option (list Band.t) :=
  let bands := Config.FREQUENCY_BANDS in
  match Config.COLOR_PALETTES !! color_palette with
  | Some palette =>
      mapM (fun '(i, band) =>
              let colors := Palette.colors palette in
              if (length colors =? 0)%nat then None
              else
                hue ← colors !! (i mod length colors)%nat;
                Some (Band.mk (Band.name band) (Band.min band) (Band.max band)
                        hue
                        (Some (Palette.saturation palette))
                        (Some (Palette.brightness palette))))
           (zip (seq 0 (length bands)) bands)
  | None =>
      Some (map (fun band =>
                   Band.mk (Band.name band) (Band.min band) (Band.max band)
                     (Band.hue_offset band) (Some 1.0) (Some 1.0))
                bands)
  end.

(** The distortion of the waveform layer's ['x'] and ['y'] modes. *)
Definition waveform_distortion (angle : R) : R := (0.3 * sin (angle * 2))%R.

Definition _get_x_rotation_matrix (angle height : R)
  : R * R * R * R * R * R * R * R :=
  let distortion := waveform_distortion angle in
  (1, 0, 0, distortion, 1, - height * distortion / 2, 0, 0)%R.

Definition _get_y_rotation_matrix (angle width : R)
  : R * R * R * R * R * R * R * R :=
  let distortion := waveform_distortion angle in
  (1, distortion, - width * distortion / 2, 0, 1, 0, 0, 0)%R.

(** The animation fields of a [MusicVisualizer]. *)
Record anim := mk_anim {
  rotation : Q;
  cover_rotation : Q;
  hue_offset : Q
}.

Definition anim_init : anim := mk_anim 0 0 0.

(** [render_frame], "Calculate volume intensity". *)
Definition volume_intensity (ap : AudioProcessor.t) (frame_idx : Z)
    (bands : list Band.t) : option Q :=
  band_values ← AudioProcessor.get_band_values ap frame_idx bands;
  let avg_volume :=
    if (0 <? length band_values)%nat then Np.mean band_values else 0 in
  gmax ← Np.max (concat (AudioProcessor.magnitude ap));
  let max_possible := if Py.lt 0 gmax then gmax else 1 in
  Some (avg_volume / max_possible).

(** [render_frame], "Update animation state". *)
Definition update_animation (volume_intensity : Q) (self : anim) : anim :=
  let rotation_speed :=
    Config.BASE_ROTATION_SPEED
    + volume_intensity * Config.VOLUME_ROTATION_MULTIPLIER in
  mk_anim (rotation self + rotation_speed)
          (cover_rotation self - rotation_speed * 2)
          (Py.fmod (hue_offset self + Config.HUE_SHIFT_BASE + volume_intensity) 360).

(** The animation state after rendering frames whose volume intensities
    are [vs], in order. *)
Definition animate (vs : list Q) (self : anim) : anim :=
  foldl (fun st v => update_animation v st) self vs.

(** An RGB image as an array of shape (height, width, 3) with 8-bit
    unsigned channels, stored row by row. *)
Definition pixel : Type := Z * Z * Z.

Record image := mk_image {
  width : nat;
  height : nat;
  pixels : list pixel
}.

(** [a.sum(axis=2)] for one pixel; NumPy accumulates 8-bit channels in
    the platform integer, so the sum does not wrap. *)
Definition channel_sum (p : pixel) : Z :=
  let '(r, g, b) := p in (r + g + b)%Z.

(** [render_frame], "Composite rotated waveforms". *)
Definition composite (img waveform_rotated : image) : option image :=
  let img_array := pixels img in
  let waveform_array := pixels waveform_rotated in
  let mask := map (fun p => (0 <? channel_sum p)%Z) waveform_array in
  vals ← Np.select mask waveform_array;
  if (width img =? width waveform_rotated)%nat
     && (height img =? height waveform_rotated)%nat
  then
    img_array' ← Np.put img_array mask vals;
    Some (mk_image (width img) (height img) img_array')
  else None.

(** [render_frame], "Initialize or fade trail buffer": one channel of
    [(trail_array * TRAIL_FADE_FACTOR).astype(np.uint8)]. *)
Definition fade_trail_channel (c : Z) : Z :=
  Np.astype_uint8 (inject_Z c * Config.TRAIL_FADE_FACTOR).

(** A channel-wise operation on a pixel. *)
Definition map_pixel (f : Z -> Z) (p : pixel) : pixel :=
  let '(r, g, b) := p in (f r, f g, f b).

(** [render_frame], "Initialize or fade trail buffer". *)
Definition fade_trail (width height : nat) (trail_buffer : option image) : image :=
  match trail_buffer with
  | None => mk_image width height (replicate (width * height) (0, 0, 0)%Z)
  | Some trail =>
      mk_image (Visualizer.width trail) (Visualizer.height trail)
        (map (map_pixel fade_trail_channel) (pixels trail))
  end.

(** [render_frame], "Apply fade to black at the end": the factor
    [1 - fade_amount] applied to the pixels, [None] standing for
    [ZeroDivisionError]; [Some None] when the frame is left as it is. *)
Definition fade_factor (fps total_frames frame_idx : Z) : option (option Q) :=
  let fade_frames := Py.int (Config.FADE_DURATION_SECONDS * inject_Z fps) in
  let frames_from_end := (total_frames - frame_idx)%Z in
  if (frames_from_end <=? fade_frames)%Z then
    if (fade_frames =? 0)%Z then None
    else
      let fade_amount := 1.0 - (inject_Z frames_from_end / inject_Z fade_frames) in
      Some (Some (1 - fade_amount))
  else Some None.

(** [render_frame], "Apply fade to black at the end". *)
Definition fade_to_black (fps total_frames frame_idx : Z) (img : image)
  : option image :=
  factor ← fade_factor fps total_frames frame_idx;
  match factor with
  | Some k =>
      Some (mk_image (width img) (height img)
              (map (map_pixel (fun c => Np.astype_uint8 (inject_Z c * k)))
                   (pixels img)))
  | None => Some img
  end.

(** [__init__]: [self.is_preview = preview_seconds is not None]. *)
Definition is_preview (preview_seconds : option Z) : bool :=
  match preview_seconds with Some _ => true | None => false end.

(** [render], "Calculate frames". *)
Definition total_frames (preview_seconds : option Z) (duration : Q) (fps : Z) : Z :=
  let truthy := match preview_seconds with
                | Some p => negb (p =? 0)%Z
                | None => false
                end in
  if truthy then
    let render_duration := Py.min (inject_Z (default 0%Z preview_seconds)) duration in
    Py.int (render_duration * inject_Z fps)
  else
    let render_duration := duration in
    Py.int (render_duration * inject_Z fps).

End Visualizer.

(** ** The loader and the volume intensity, non-finite values kept

    [_load_audio]'s normalisation, and [get_band_values] and the volume
    intensity of [render_frame] once more, over [Ieee.t] instead of [Q]:
    the same code as in [AudioProcessor] and [Visualizer], followed on
    values that [Q] cannot hold. *)
Module FloatAudio.

(** [np.abs] on an [int16] array: the most negative value has no positive
    counterpart and comes back unchanged. *)
Definition abs_int16 (s : Z) : Z :=
  if (s =? -32768)%Z then s else Z.abs s.

(** [np.max] of an integer array; raises [ValueError] on an empty array. *)
Definition max_int (l : list Z) : option Z :=
  match l with
  | [] => None
  | x :: xs => Some (foldl Z.max x xs)
  end.

(** [_load_audio], "Normalize", for the samples of a mono 16-bit PCM file:
    [audio_data.astype(np.float32) / np.max(np.abs(audio_data))]. *)
Definition normalize (audio_data : list Z) : option (list Ieee.t) :=
  peak ← max_int (map abs_int16 audio_data);
  Some (map (fun s => Ieee.div (Ieee.Fin (inject_Z s)) (Ieee.Fin (inject_Z peak)))
            audio_data).

(** The analysis result, as [AudioProcessor.t], with magnitudes that may be
    NaN or infinite. *)
Record t := mk {
  frequencies : list Q;
  magnitude : list (list Ieee.t);
  n_frames : nat
}.

(** [magnitude[:, frame_idx]]. *)
Definition column (self : t) (frame_idx : Z) : option (list Ieee.t) :=
  k ← Py.index frame_idx (n_frames self);
  mapM (fun row : list Ieee.t => row !! k) (magnitude self).

(** The guard at the head of [get_band_values]. *)
Definition clamp (self : t) (frame_idx : Z) : Z :=
  if (Z.of_nat (n_frames self) <=? frame_idx)%Z
  then (Z.of_nat (n_frames self) - 1)%Z else frame_idx.

(** [(frequencies >= lo) & (frequencies <= hi)]. *)
Definition band_mask (self : t) (lo hi : Q) : list bool :=
  map (fun f => Qle_bool lo f && Qle_bool f hi) (frequencies self).

Definition get_band_values (self : t) (frame_idx : Z) (bands : list Band.t)
  : option (list Ieee.t) :=
  let frame_idx := clamp self frame_idx in
  frame_data ← column self frame_idx;
  mapM (fun band =>
          let mask := band_mask self (Band.min band) (Band.max band) in
          band_data ← Np.select mask frame_data;
          Some (if (0 <? length band_data)%nat then Ieee.mean band_data
                else Ieee.Fin 0))
       bands.

(** [render_frame], "Calculate volume intensity". *)
Definition volume_intensity (self : t) (frame_idx : Z) (bands : list Band.t)
  : option Ieee.t :=
  band_values ← get_band_values self frame_idx bands;
  let avg_volume :=
    if (0 <? length band_values)%nat then Ieee.mean band_values
    else Ieee.Fin 0 in
  gmax ← Ieee.max (concat (magnitude self));
  let max_possible := if Ieee.lt (Ieee.Fin 0) gmax then gmax else Ieee.Fin 1 in
  Some (Ieee.div avg_volume max_possible).

End FloatAudio.

(** ** Specification-level vocabulary

    Well-formedness of the analysis result and the quantities the
    specification talks about, stated directly over bins and frames. *)
Module Spec.
Import AudioProcessor.

(** An analysis result as the short-time Fourier transform produces it:
    one frequency per bin, every bin row with [n_frames] entries, and at
    least one time frame. *)
Definition wf (ap : AudioProcessor.t) : Prop :=
  length (frequencies ap) = length (magnitude ap)
  /\ Forall (fun row => length row = n_frames ap) (magnitude ap)
  /\ (0 < n_frames ap)%nat.

(** Magnitudes are absolute values. *)
Definition nonneg (ap : AudioProcessor.t) : Prop :=
  Forall (Forall (fun x => 0 <= x)) (magnitude ap).

(** Every bin of the (clamped) frame [frame_idx] holds NaN. *)
Definition nan_frame (sp : FloatAudio.t) (frame_idx : Z) : Prop :=
  FloatAudio.column sp (FloatAudio.clamp sp frame_idx)
  = Some (replicate (length (FloatAudio.frequencies sp)) Ieee.NaN).

(** Last valid frame index. *)
Definition last_frame (ap : AudioProcessor.t) : Z :=
  (Z.of_nat (n_frames ap) - 1)%Z.

(** A non-negative frame index clamped to the last valid frame. *)
Definition clamped (ap : AudioProcessor.t) (frame_idx : Z) : nat :=
  Z.to_nat (Z.min frame_idx (last_frame ap)).

(** [lo <= f <= hi]. *)
Definition in_band (lo hi f : Q) : bool := Qle_bool lo f && Qle_bool f hi.

(** Magnitude of a bin row at frame [k]. *)
Definition at_frame (k : nat) (row : list Q) : Q := default 0 (row !! k).

(** Sum over all bins of the magnitude at frame [k], counting only the
    bins whose frequency lies in [[lo, hi]]. *)
Definition band_energy (ap : AudioProcessor.t) (lo hi : Q) (k : nat) : Q :=
  Np.sum (zip_with (fun f row => if in_band lo hi f then at_frame k row else 0)
            (frequencies ap) (magnitude ap)).

(** Bass range plus low-mid range. *)
Definition low_band_energy (ap : AudioProcessor.t) (k : nat) : Q :=
  band_energy ap 20 250 k + band_energy ap 250 1000 k.

(** Sum of the entire magnitude spectrogram. *)
Definition total_magnitude (ap : AudioProcessor.t) : Q :=
  Np.sum (map Np.sum (magnitude ap)).

(** Beat threshold: average column sum times 0.3. *)
Definition threshold (ap : AudioProcessor.t) : Q :=
  total_magnitude ap / inject_Z (Z.of_nat (n_frames ap)) * 0.3.

(** The magnitudes of frame [k] in the bins of one band, in bin order. *)
Definition band_slice (ap : AudioProcessor.t) (band : Band.t) (k : nat) : list Q :=
  concat (zip_with (fun f row =>
                      if in_band (Band.min band) (Band.max band) f
                      then [at_frame k row] else [])
            (frequencies ap) (magnitude ap)).

(** Position in a slice of [len] entries read for output point [i] of
    [points]: evenly spaced over the slice, truncated to an integer. *)
Definition nearest_index (len points i : nat) : nat :=
  if (points <=? 1)%nat then 0%nat
  else Z.to_nat (Qfloor (inject_Z (Z.of_nat i) * inject_Z (Z.of_nat len - 1)
                         / inject_Z (Z.of_nat points - 1))).

(** Entry [i] of the index array built for a slice of [len] entries, before
    truncation. *)
Definition lin_value (len n i : nat) : Q :=
  let stop := inject_Z (Z.of_nat len) - 1 in
  if (1 <? n)%nat && (i =? n - 1)%nat then stop
  else if (1 <? n)%nat
       then inject_Z (Z.of_nat i) * ((stop - 0) / inject_Z (Z.of_nat n - 1)) + 0
  else inject_Z (Z.of_nat i) * (stop - 0) + 0.

(** Value reported for one band at frame [k]: the arithmetic mean of its
    slice, or 0 when no bin falls in the band. *)
Definition band_value (ap : AudioProcessor.t) (k : nat) (band : Band.t) : Q :=
  let s := band_slice ap band k in
  if (0 <? length s)%nat then Np.mean s else 0.

(** [g] is the largest magnitude of the whole spectrogram. *)
Definition is_global_max (ap : AudioProcessor.t) (g : Q) : Prop :=
  (exists row, row ∈ magnitude ap /\ g ∈ row)
  /\ forall row x, row ∈ magnitude ap -> x ∈ row -> x <= g.

(** Denominator of every normalisation: the global maximum, or 1 when the
    maximum is not positive. *)
Definition guard (g : Q) : Q := if Qlt_le_dec 0 g then g else 1.

(** A band subscript that selects an entry of the band list. *)
Definition valid_band_idx (bands : list Band.t) (band_idx : Z) : Prop :=
  (- Z.of_nat (length bands) <= band_idx < Z.of_nat (length bands))%Z.

(** The band a valid subscript selects. *)
Definition band_at (bands : list Band.t) (band_idx : Z) : option Band.t :=
  bands !! Z.to_nat (band_idx mod Z.of_nat (length bands)).

(** An 8-bit channel value. *)
Definition is_uint8 (c : Z) : Prop := (0 <= c < 256)%Z.

Definition valid_pixel (p : Visualizer.pixel) : Prop :=
  let '(r, g, b) := p in is_uint8 r /\ is_uint8 g /\ is_uint8 b.

(** An image whose buffer matches its dimensions and holds 8-bit channels. *)
Definition valid_image (im : Visualizer.image) : Prop :=
  length (Visualizer.pixels im) = (Visualizer.width im * Visualizer.height im)%nat
  /\ Forall valid_pixel (Visualizer.pixels im).

(** A band whose colour fields are all set and in range. *)
Definition band_colored (b : Band.t) : Prop :=
  0 <= Band.hue_offset b < 360
  /\ exists s v, Band.saturation b = Some s /\ Band.brightness b = Some v
                 /\ 0 < s <= 1 /\ 0 < v <= 1.

(** One frame of pure decay: the trail buffer is faded and nothing is drawn
    into it. *)
Definition decay_step (im : Visualizer.image) : Visualizer.image :=
  Visualizer.fade_trail (Visualizer.width im) (Visualizer.height im) (Some im).

(** The history left by successive [draw_text_overlay] calls, one per
    [(beat_intensity, volume_intensity)] pair. *)
Definition text_history (text : option string) (frames : list (Q * Q))
    (history : list Q) : list Q :=
  foldl (fun h '(beat, volume) => (Effects.draw_text_overlay text beat volume h).1)
        history frames.

(** Distance of a star from the point [(cx, cy)]. *)
Definition dist (cx cy : R) (s : Star.t) : R :=
  sqrt ((Star.x s - cx) * (Star.x s - cx) + (Star.y s - cy) * (Star.y s - cy))%R.

End Spec.

(** ** Sample data on which the models are run *)
Module Sample.

(** Four bins (0, 100, 300 and 2000 Hz) over three time frames. *)
Definition ap : AudioProcessor.t :=
  AudioProcessor.mk [0; 100; 300; 2000]
    [ [1; 2; 0];
      [3; 1; 4];
      [2; 2; 2];
      [5; 0; 1] ]
    3.

(** Eight samples of 16-bit silence. *)
Definition silence : list Z := replicate 8 0%Z.

(** The same bins with NaN in every bin of the first two frames; the last
    frame is finite. *)
Definition nan_frames : FloatAudio.t :=
  FloatAudio.mk [0; 100; 300; 2000]
    [ [Ieee.NaN; Ieee.NaN; Ieee.Fin 0];
      [Ieee.NaN; Ieee.NaN; Ieee.Fin 0];
      [Ieee.NaN; Ieee.NaN; Ieee.Fin 0];
      [Ieee.NaN; Ieee.NaN; Ieee.Fin 0] ]
    3.

(** Every frame carries the same low-band energy. *)
Definition steady : AudioProcessor.t :=
  AudioProcessor.mk [0; 100; 300; 2000]
    [ [1; 1; 1]; [4; 4; 4]; [2; 2; 2]; [0; 0; 0] ] 3.

Definition black : Visualizer.pixel := (0, 0, 0)%Z.
Definition red : Visualizer.pixel := (255, 0, 0)%Z.
Definition grey : Visualizer.pixel := (40, 40, 40)%Z.

(** A 2x2 working image and a 2x2 waveform canvas with one lit pixel. *)
Definition img : Visualizer.image :=
  Visualizer.mk_image 2 2 [grey; grey; grey; grey].
Definition wave : Visualizer.image :=
  Visualizer.mk_image 2 2 [black; red; black; black].

(** A star right of the centre of a 1280x720 canvas, and one about to leave
    it. *)
Definition star : Star.t := Star.mk 700 360 1 2.
Definition edge_star : Star.t := Star.mk 1280 360 2 3.

End Sample.

(** * Properties *)

Import AudioProcessor Spec.

(** ** Comparisons, minimum, truncation and modulo *)

(** Order facts between integers injected into the rationals. *)
Ltac inj_order :=
  try change 0 with (inject_Z 0); try change 1 with (inject_Z 1);
  first [rewrite <- Zlt_Qlt | rewrite <- Zle_Qle]; lia.

Lemma lt_true a b : Py.lt a b = true <-> a < b.
Proof.
  unfold Py.lt. rewrite negb_true_iff. split.
  - intros H. apply Qnot_le_lt. intros Hle. apply Qle_bool_iff in Hle. congruence.
  - intros H. destruct (Qle_bool b a) eqn:E; [|done].
    apply Qle_bool_iff in E. lra.
Qed.

Lemma lt_false a b : Py.lt a b = false <-> b <= a.
Proof. unfold Py.lt. rewrite negb_false_iff. apply Qle_bool_iff. Qed.

Lemma lt_comp a a' b b' : a == a' -> b == b' -> Py.lt a b = Py.lt a' b'.
Proof. intros Ha Hb. unfold Py.lt. by rewrite Ha, Hb. Qed.

Lemma min_Qmin a b : Py.min a b == Qmin a b.
Proof.
  unfold Py.min. destruct (Py.lt b a) eqn:E.
  - apply lt_true in E. symmetry. apply Q.min_r. lra.
  - apply lt_false in E. symmetry. by apply Q.min_l.
Qed.

Lemma min_comp a b b' : b == b' -> Py.min a b == Py.min a b'.
Proof.
  intros H. unfold Py.min. rewrite (lt_comp b b' a a H (Qeq_refl a)).
  by destruct (Py.lt b' a).
Qed.

Lemma int_comp x y : x == y -> Py.int x = Py.int y.
Proof.
  intros H. unfold Py.int.
  rewrite (Qfloor_comp x y H), (Qceiling_comp x y H).
  assert (Qle_bool 0 x = Qle_bool 0 y) as ->; [|done].
  by apply Qleb_comp.
Qed.

Lemma int_nonneg x : 0 <= x -> Py.int x = Qfloor x.
Proof. intros H. unfold Py.int. apply Qle_bool_iff in H. by rewrite H. Qed.

Lemma fmod_range x m : 0 < m -> 0 <= Py.fmod x m < m.
Proof.
  intros Hm. unfold Py.fmod.
  pose proof (Qfloor_le (x / m)) as Hlo. pose proof (Qlt_floor (x / m)) as Hhi.
  rewrite inject_Z_plus in Hhi. change (inject_Z 1) with 1 in Hhi.
  set (k := inject_Z (Qfloor (x / m))) in *.
  assert (Hx : x == m * (x / m)) by (field; lra).
  split.
  - assert (m * k <= m * (x / m)) by nra. lra.
  - assert (m * (x / m) < m * (k + 1)) by nra. lra.
Qed.

Lemma fmod_comp x x' m : x == x' -> Py.fmod x m == Py.fmod x' m.
Proof.
  intros H. unfold Py.fmod.
  assert (Hf : Qfloor (x / m) = Qfloor (x' / m)) by (apply Qfloor_comp; by rewrite H).
  rewrite Hf, H. reflexivity.
Qed.

Lemma fmod_idem x m : 0 < m -> Py.fmod (Py.fmod x m) m == Py.fmod x m.
Proof.
  intros Hm. pose proof (fmod_range x m Hm) as [Hlo Hhi].
  set (y := Py.fmod x m) in *. unfold Py.fmod.
  assert (Hf : Qfloor (y / m) = 0%Z).
  { assert (H0 : 0 <= y / m) by (apply Qle_shift_div_l; lra).
    assert (H1 : y / m < 1) by (apply Qlt_shift_div_r; lra).
    pose proof (Qfloor_le (y / m)). pose proof (Qlt_floor (y / m)) as Hlt.
    assert ((0 <= Qfloor (y / m))%Z).
    { change 0%Z with (Qfloor 0). by apply Qfloor_resp_le. }
    assert ((Qfloor (y / m) < 1)%Z).
    { rewrite Zlt_Qlt. change (inject_Z 1) with 1. lra. }
    lia. }
  rewrite Hf. change (inject_Z 0) with 0. ring.
Qed.

Lemma index_nonneg i n : (0 <= i < Z.of_nat n)%Z -> Py.index i n = Some (Z.to_nat i).
Proof.
  intros H. unfold Py.index.
  destruct (Z.leb_spec 0 i); [|lia]. destruct (Z.ltb_spec i (Z.of_nat n)); [|lia]. done.
Qed.

(** ** Array primitives *)

Lemma sum_app l1 l2 : Np.sum (l1 ++ l2) == Np.sum l1 + Np.sum l2.
Proof.
  induction l1 as [|x l1 IH]; simpl.
  - ring.
  - unfold Np.sum in *. simpl. rewrite IH. ring.
Qed.

Lemma sum_concat ls : Np.sum (concat ls) == Np.sum (map Np.sum ls).
Proof.
  induction ls as [|l ls IH]; simpl; [reflexivity|].
  rewrite sum_app, IH. reflexivity.
Qed.

Lemma sum_nonneg l : Forall (fun x => 0 <= x) l -> 0 <= Np.sum l.
Proof. induction 1 as [|x l Hx _ IH]; unfold Np.sum in *; simpl; lra. Qed.

Lemma elem_of_concat {A} (x : A) (ls : list (list A)) :
  x ∈ concat ls <-> exists l, l ∈ ls /\ x ∈ l.
Proof.
  induction ls as [|l ls IH]; simpl.
  - split; [by intros ?%elem_of_nil|]. by intros (l & ?%elem_of_nil & _).
  - rewrite elem_of_app, IH. split.
    + intros [H|(l' & H1 & H2)]; [exists l; split; [by left|done]|].
      exists l'. split; [by right|done].
    + intros (l' & [->|H1]%elem_of_cons & H2); [by left|]. right. eauto.
Qed.

Lemma foldl_max_spec (xs : list Q) (x : Q) :
  let g := foldl (fun m y => if Py.lt m y then y else m) x xs in
  g ∈ x :: xs /\ forall y, y ∈ x :: xs -> y <= g.
Proof.
  revert x. induction xs as [|z xs IH]; intros x; simpl.
  - split; [by left|]. intros y Hy. apply list_elem_of_singleton in Hy as ->. lra.
  - destruct (Py.lt x z) eqn:E.
    + apply lt_true in E. destruct (IH z) as [Hin Hmax]. split.
      * by right.
      * intros y Hy. apply elem_of_cons in Hy as [->|Hy]; [|by apply Hmax].
        pose proof (Hmax z ltac:(by left)). lra.
    + apply lt_false in E. destruct (IH x) as [Hin Hmax]. split.
      * apply elem_of_cons in Hin as [->|Hin]; [by left|]. right. by right.
      * intros y Hy. apply elem_of_cons in Hy as [->|Hy]; [by apply Hmax; left|].
        apply elem_of_cons in Hy as [->|Hy]; [|by apply Hmax; right].
        pose proof (Hmax x ltac:(by left)). lra.
Qed.

Lemma max_spec (l : list Q) g :
  Np.max l = Some g -> g ∈ l /\ forall y, y ∈ l -> y <= g.
Proof.
  destruct l as [|x xs]; simpl; [done|]. intros [= <-]. apply foldl_max_spec.
Qed.

Lemma max_is_Some (l : list Q) : l <> [] -> is_Some (Np.max l).
Proof. destruct l; [done|]. simpl. eauto. Qed.

Lemma select_map {A B} (p : A -> bool) (g : B -> Q) (xs : list A) (ys : list B) :
  length xs = length ys ->
  Np.select (map p xs) (map g ys)
  = Some (concat (zip_with (fun x y => if p x then [g y] else []) xs ys)).
Proof.
  revert ys. induction xs as [|x xs IH]; intros [|y ys] Hlen; simplify_eq/=; [done|].
  rewrite IH by lia. simpl. by destruct (p x).
Qed.

Lemma sum_slice {A B} (p : A -> bool) (g : B -> Q) (xs : list A) (ys : list B) :
  Np.sum (concat (zip_with (fun x y => if p x then [g y] else []) xs ys))
  == Np.sum (zip_with (fun x y => if p x then g y else 0) xs ys).
Proof.
  revert ys. induction xs as [|x xs IH]; intros [|y ys]; simpl; try reflexivity.
  rewrite sum_app, IH. unfold Np.sum at 3. simpl.
  fold (Np.sum (zip_with (fun x y => if p x then g y else 0) xs ys)).
  destruct (p x); unfold Np.sum; simpl; ring.
Qed.

Lemma put_select {A} (p : A -> bool) (src dst : list A) :
  length dst = length src ->
  exists vals,
    Np.select (map p src) src = Some vals
    /\ Np.put dst (map p src) vals
       = Some (zip_with (fun d s => if p s then s else d) dst src).
Proof.
  revert dst. induction src as [|s src IH]; intros [|d dst] Hlen; simplify_eq/=.
  - by exists [].
  - destruct (IH dst) as (vals & Hsel & Hput); [lia|].
    rewrite Hsel. simpl. destruct (p s).
    + eexists. split; [reflexivity|]. simpl. by rewrite Hput.
    + eexists. split; [reflexivity|]. simpl. by rewrite Hput.
Qed.

Lemma mapM_map {A B C} (h : A -> B) (f : B -> option C) (g : A -> C) (l : list A) :
  Forall (fun a => f (h a) = Some (g a)) l -> mapM f (map h l) = Some (map g l).
Proof.
  induction 1 as [|a l Ha _ IH]; [done|].
  simpl. rewrite Ha. simpl. rewrite IH. done.
Qed.

Lemma mapM_pointwise {A B} (f : A -> option B) (g : A -> B) (l : list A) :
  Forall (fun a => f a = Some (g a)) l -> mapM f l = Some (map g l).
Proof. intros H. rewrite <- (map_id l) at 1. by apply mapM_map. Qed.

(** ** Spectral queries on a well-formed analysis result *)
Section SpectralQueries.
Context (ap : AudioProcessor.t) (Hwf : wf ap).

Lemma clamp_index f :
  (0 <= f)%Z ->
  Py.index (clamp ap f) (n_frames ap) = Some (clamped ap f)
  /\ (clamped ap f < n_frames ap)%nat.
Proof using Hwf.
  destruct Hwf as (_ & _ & Hn). intros Hf. unfold clamp, clamped, last_frame.
  destruct (Z.leb_spec (Z.of_nat (n_frames ap)) f).
  - rewrite index_nonneg by lia. split; [f_equal|]; lia.
  - rewrite index_nonneg by lia. split; [f_equal|]; lia.
Qed.

Lemma clamp_past_end f :
  (Z.of_nat (n_frames ap) <= f)%Z -> clamp ap f = clamp ap (last_frame ap).
Proof using Hwf.
  destruct Hwf as (_ & _ & Hn). intros Hf. unfold clamp, last_frame.
  destruct (Z.leb_spec (Z.of_nat (n_frames ap)) f); [|lia].
  destruct (Z.leb_spec (Z.of_nat (n_frames ap)) (Z.of_nat (n_frames ap) - 1)); [lia|done].
Qed.

Lemma column_clamped f :
  (0 <= f)%Z ->
  column ap (clamp ap f) = Some (map (at_frame (clamped ap f)) (magnitude ap)).
Proof using Hwf.
  intros Hf. unfold column. destruct (clamp_index f Hf) as [-> Hk]. simpl.
  destruct Hwf as (_ & Hrows & _). apply mapM_pointwise.
  eapply Forall_impl; [exact Hrows|]. intros row Hrow. simpl in Hrow.
  unfold at_frame. destruct (lookup_lt_is_Some_2 row (clamped ap f)) as [x ->]; [lia|done].
Qed.

Lemma select_band lo hi k :
  exists sel,
    Np.select (band_mask ap lo hi) (map (at_frame k) (magnitude ap)) = Some sel
    /\ Np.sum sel == band_energy ap lo hi k.
Proof using Hwf.
  destruct Hwf as (Hlen & _). eexists. split.
  - unfold band_mask. by apply (select_map (in_band lo hi) (at_frame k)).
  - apply sum_slice.
Qed.

Lemma band_data_slice band k :
  Np.select (band_mask ap (Band.min band) (Band.max band))
            (map (at_frame k) (magnitude ap))
  = Some (band_slice ap band k).
Proof using Hwf.
  destruct Hwf as (Hlen & _). unfold band_mask, band_slice.
  by apply (select_map (in_band (Band.min band) (Band.max band)) (at_frame k)).
Qed.


Lemma slice_rows band k : band_slice ap band k <> [] -> magnitude ap <> [].
Proof.
  unfold band_slice. destruct (magnitude ap); [|done].
  by destruct (frequencies ap).
Qed.

Lemma magnitude_nonempty : magnitude ap <> [] -> concat (magnitude ap) <> [].
Proof using Hwf.
  destruct Hwf as (_ & Hrows & Hn). intros Hne.
  destruct (magnitude ap) as [|row rows]; [done|].
  apply Forall_cons in Hrows as [Hrow _]. destruct row; simpl in *; [lia|done].
Qed.

Lemma global_max g :
  Np.max (concat (magnitude ap)) = Some g -> is_global_max ap g.
Proof.
  intros H. apply max_spec in H as [Hin Hmax]. split.
  - apply elem_of_concat in Hin as (row & Hrow & Hg). eauto.
  - intros row x Hrow Hx. apply Hmax. apply elem_of_concat. eauto.
Qed.

Lemma get_band_values_eq f bands :
  (0 <= f)%Z ->
  get_band_values ap f bands = Some (map (band_value ap (clamped ap f)) bands).
Proof using Hwf.
  intros Hf. unfold get_band_values.
  rewrite column_clamped by done. simpl.
  apply mapM_pointwise. apply Forall_forall. intros band _.
  by rewrite band_data_slice.
Qed.

End SpectralQueries.

Lemma guard_eq g : (if Py.lt 0 g then g else 1) = guard g.
Proof.
  unfold guard. destruct (Qlt_le_dec 0 g) as [H|H].
  - apply lt_true in H. by rewrite H.
  - apply lt_false in H. by rewrite H.
Qed.

Lemma getitem_valid (bands : list Band.t) band_idx :
  valid_band_idx bands band_idx ->
  Py.getitem bands band_idx = band_at bands band_idx
  /\ is_Some (band_at bands band_idx).
Proof.
  unfold valid_band_idx, Py.getitem, Py.index, band_at. intros H.
  destruct (Z.leb_spec 0 band_idx); simpl.
  - destruct (Z.ltb_spec band_idx (Z.of_nat (length bands))); [|lia]. simpl.
    rewrite Z.mod_small by lia. split; [done|]. apply lookup_lt_is_Some. lia.
  - destruct (Z.ltb_spec band_idx 0); [|lia].
    destruct (Z.leb_spec (- Z.of_nat (length bands)) band_idx); [|lia]. simpl.
    replace (band_idx mod Z.of_nat (length bands))%Z
      with (band_idx + Z.of_nat (length bands))%Z.
    + split; [done|]. apply lookup_lt_is_Some. lia.
    + apply Z.mod_unique with (q := (-1)%Z); lia.
Qed.

(** ** Evenly spaced resampling *)

Lemma lin_value_eq (L n i : nat) :
  (0 < L)%nat -> (i < n)%nat ->
  lin_value L n i ==
  if (n <=? 1)%nat then 0
  else inject_Z (Z.of_nat i) * inject_Z (Z.of_nat L - 1) / inject_Z (Z.of_nat n - 1).
Proof.
  intros HL Hi. unfold lin_value.
  assert (Hs : inject_Z (Z.of_nat L) - 1 == inject_Z (Z.of_nat L - 1)).
  { unfold Z.sub. rewrite inject_Z_plus. reflexivity. }
  destruct (Nat.ltb_spec 1 n) as [H1|H1]; destruct (Nat.leb_spec n 1) as [H2|H2];
    try lia; simpl.
  - assert (Hd : 0 < inject_Z (Z.of_nat n - 1)) by inj_order.
    destruct (Nat.eqb_spec i (n - 1)) as [->|Hne].
    + rewrite Hs. replace (Z.of_nat (n - 1)) with (Z.of_nat n - 1)%Z by lia.
      field. lra.
    + rewrite Hs. field. lra.
  - assert (i = 0)%nat as -> by lia. simpl. ring.
Qed.

Lemma lin_index (L n i : nat) :
  (0 < L)%nat -> (i < n)%nat ->
  Py.int (lin_value L n i) = Z.of_nat (nearest_index L n i)
  /\ (nearest_index L n i < L)%nat.
Proof.
  intros HL Hi. rewrite (int_comp _ _ (lin_value_eq L n i HL Hi)).
  unfold nearest_index. destruct (Nat.leb_spec n 1) as [H1|H1].
  - split; [reflexivity|lia].
  - set (q := inject_Z (Z.of_nat i) * inject_Z (Z.of_nat L - 1)
              / inject_Z (Z.of_nat n - 1)).
    assert (Hd : 0 < inject_Z (Z.of_nat n - 1)) by inj_order.
    assert (Hi0 : 0 <= inject_Z (Z.of_nat i)) by inj_order.
    assert (Hin : inject_Z (Z.of_nat i) <= inject_Z (Z.of_nat n - 1)) by inj_order.
    assert (HL0 : 0 <= inject_Z (Z.of_nat L - 1)) by inj_order.
    assert (Hq0 : 0 <= q).
    { unfold q. apply Qle_shift_div_l; [done|]. nra. }
    assert (HqL : q <= inject_Z (Z.of_nat L - 1)).
    { unfold q. apply Qle_shift_div_r; [done|]. nra. }
    assert (Hf0 : (0 <= Qfloor q)%Z).
    { change 0%Z with (Qfloor 0). by apply Qfloor_resp_le. }
    assert (HfL : (Qfloor q <= Z.of_nat L - 1)%Z).
    { rewrite <- (Qfloor_Z (Z.of_nat L - 1)). by apply Qfloor_resp_le. }
    rewrite int_nonneg by done. split; lia.
Qed.

Lemma linspace_eq (L : nat) (points : Z) :
  (0 <= points)%Z ->
  Np.linspace 0 (inject_Z (Z.of_nat L) - 1) points
  = Some (map (lin_value L (Z.to_nat points)) (seq 0 (Z.to_nat points))).
Proof.
  intros Hp. unfold Np.linspace. destruct (Z.ltb_spec points 0); [lia|].
  f_equal. apply map_ext. intros i. unfold lin_value.
  by rewrite Z2Nat.id by lia.
Qed.

Lemma take_linspace (slice : list Q) (points : Z) :
  slice <> [] -> (0 <= points)%Z ->
  exists w,
    Np.take slice
      (Np.astype_int (map (lin_value (length slice) (Z.to_nat points))
                          (seq 0 (Z.to_nat points)))) = Some w
    /\ length w = Z.to_nat points
    /\ forall i, (i < Z.to_nat points)%nat ->
         exists s, slice !! nearest_index (length slice) (Z.to_nat points) i = Some s
                   /\ w !! i = Some s.
Proof.
  intros Hne Hp.
  set (n := Z.to_nat points). set (L := length slice).
  assert (HL : (0 < L)%nat). { unfold L. destruct slice; [done|simpl; lia]. }
  exists (map (fun i => default 0 (slice !! nearest_index L n i)) (seq 0 n)).
  split; [|split].
  - unfold Np.take, Np.astype_int. rewrite map_map.
    apply mapM_map. apply Forall_forall. intros i Hi.
    apply elem_of_seq in Hi. destruct (lin_index L n i HL) as [-> Hlt]; [lia|].
    unfold Py.getitem. rewrite index_nonneg by (fold L; lia). simpl.
    rewrite Nat2Z.id.
    destruct (lookup_lt_is_Some_2 slice (nearest_index L n i)) as [s ->]; done.
  - by rewrite length_map, length_seq.
  - intros i Hi. destruct (lin_index L n i HL Hi) as [_ Hlt].
    destruct (lookup_lt_is_Some_2 slice (nearest_index L n i)) as [s Hs]; [done|].
    exists s. split; [done|].
    change (map ?f ?l) with (f <$> l). rewrite list_lookup_fmap, lookup_seq_lt by done.
    simpl. by rewrite Hs.
Qed.

(** Discharging well-formedness and entry-wise conditions on concrete data. *)
Ltac solve_wf := split; [reflexivity | split; [repeat constructor | simpl; lia]].
Ltac solve_entries :=
  repeat constructor; first [reflexivity | by apply Qle_bool_iff].

(** ** Band waveform *)

Lemma get_band_waveform_eq ap f band_idx bands points band :
  wf ap -> (0 <= f)%Z -> (0 <= points)%Z ->
  valid_band_idx bands band_idx -> band_at bands band_idx = Some band ->
  let slice := band_slice ap band (clamped ap f) in
  exists w,
    get_band_waveform ap f band_idx bands points = Some w
    /\ length w = Z.to_nat points
    /\ (slice = [] -> w = replicate (Z.to_nat points) 0)
    /\ (slice <> [] ->
        exists g, is_global_max ap g
          /\ forall i, (i < Z.to_nat points)%nat ->
               exists s, slice !! nearest_index (length slice) (Z.to_nat points) i = Some s
                         /\ w !! i = Some (s / guard g)).
Proof.
  intros Hwf Hf Hp Hvalid Hband slice. unfold get_band_waveform.
  destruct (getitem_valid bands band_idx Hvalid) as [-> _]. rewrite Hband. simpl.
  rewrite column_clamped by done. simpl.
  rewrite band_data_slice by done. simpl. fold slice.
  destruct (Nat.eqb_spec (length slice) 0) as [H0|H0].
  - apply length_zero_iff_nil in H0. unfold Np.zeros.
    destruct (Z.ltb_spec points 0); [lia|].
    eexists. split; [reflexivity|]. split; [apply length_replicate|].
    split; [done|]. by intros [].
  - assert (Hne : slice <> []) by (by intros ->).
    rewrite linspace_eq by done. simpl.
    destruct (take_linspace slice points Hne Hp) as (w0 & -> & Hlen & Hw0). simpl.
    destruct (max_is_Some (concat (magnitude ap))) as [g Hg].
    { apply magnitude_nonempty; [done|]. by eapply slice_rows. }
    rewrite Hg. simpl. rewrite guard_eq.
    eexists. split; [reflexivity|]. split; [by rewrite length_map|].
    split; [done|]. intros _. exists g. split; [by apply global_max|].
    intros i Hi. destruct (Hw0 i Hi) as (s & Hs & Hwi). exists s. split; [done|].
    change (map ?h ?l) with (h <$> l). by rewrite list_lookup_fmap, Hwi.
Qed.



(** The resampling on the sample data: the slice [0; 4; 2; 1] of frame 2
    read at six points, over the global maximum 5. *)
Example band_waveform_sample :
  option_map (map Qred)
    (get_band_waveform Sample.ap 2 (-1) [Band.mk "all" 0 5000 0 None None] 6)
  = Some [0; 0; 4 # 5; 4 # 5; 2 # 5; 1 # 5].
Proof. vm_compute. reflexivity. Qed.

(** ** Clamping law *)

(** C3: on a well-formed spectrogram, for every band list and every frame
    index at or past the frame count, [get_band_values] and
    [get_band_waveform] return exactly what they return for the last valid
    frame index; [get_band_values] does not raise, and neither does
    [get_band_waveform] when the band subscript selects a band and [points]
    is non-negative. *)
Theorem clamping_law ap bands f :
  wf ap -> (Z.of_nat (n_frames ap) <= f)%Z ->
  get_band_values ap f bands = get_band_values ap (last_frame ap) bands
  /\ is_Some (get_band_values ap f bands)
  /\ forall band_idx points,
       get_band_waveform ap f band_idx bands points
       = get_band_waveform ap (last_frame ap) band_idx bands points
       /\ (valid_band_idx bands band_idx -> (0 <= points)%Z ->
           is_Some (get_band_waveform ap f band_idx bands points)).
Proof.
  intros Hwf Hf. pose proof (clamp_past_end ap Hwf f Hf) as Hc.
  split; [|split].
  - unfold get_band_values. by rewrite Hc.
  - rewrite get_band_values_eq by (done || lia). eauto.
  - intros band_idx points. split.
    + unfold get_band_waveform. by rewrite Hc.
    + intros Hvalid Hp.
      destruct (getitem_valid bands band_idx Hvalid) as [_ [band Hband]].
      destruct (get_band_waveform_eq ap f band_idx bands points band)
        as (w & -> & _); eauto.
      lia.
Qed.

Lemma clamping_law_witness :
  wf Sample.ap
  /\ (Z.of_nat (n_frames Sample.ap) <= 7)%Z
  /\ get_band_values Sample.ap 7 Config.FREQUENCY_BANDS
     = get_band_values Sample.ap 2 Config.FREQUENCY_BANDS
  /\ is_Some (get_band_values Sample.ap 7 Config.FREQUENCY_BANDS).
Proof.
  assert (Hwf : wf Sample.ap) by solve_wf.
  assert (Hf : (Z.of_nat (n_frames Sample.ap) <= 7)%Z) by (simpl; lia).
  split; [exact Hwf|]. split; [exact Hf|].
  destruct (clamping_law Sample.ap Config.FREQUENCY_BANDS 7 Hwf Hf) as (Heq & Hsome & _).
  split; [exact Heq | exact Hsome].
Defined.

Example band_values_past_end :
  option_map (map Qred) (get_band_values Sample.ap 7 Config.FREQUENCY_BANDS)
  = Some [0; 0; 4; 4; 2; 0; 0; 0].
Proof. vm_compute. reflexivity. Qed.

(** ** Beat detector *)

Lemma threshold_eq ap :
  Np.sum (concat (magnitude ap)) / inject_Z (Z.of_nat (n_frames ap)) * 0.3
  == threshold ap.
Proof. unfold threshold, total_magnitude. by rewrite sum_concat. Qed.

Lemma threshold_nonneg ap : nonneg ap -> 0 <= threshold ap.
Proof.
  intros Hnn. unfold threshold, total_magnitude.
  assert (H0 : 0 <= Np.sum (map Np.sum (magnitude ap))).
  { apply sum_nonneg. apply Forall_map. eapply Forall_impl; [exact Hnn|].
    intros row Hrow. by apply sum_nonneg. }
  assert (Hn : 0 <= / inject_Z (Z.of_nat (n_frames ap))).
  { apply Qinv_le_0_compat. inj_order. }
  unfold Qdiv. nra.
Qed.

(** The call unfolded on a well-formed spectrogram: the masks select the
    low-band energy of the clamped frame. *)
Lemma detect_beat_eq ap self f :
  wf ap -> (0 <= f)%Z ->
  exists total,
    total == low_band_energy ap (clamped ap f) /\
    BeatDetector.detect_beat self f ap =
    let energy_change := total - BeatDetector.prev_energy self in
    let threshold :=
      Np.sum (concat (magnitude ap)) / inject_Z (Z.of_nat (n_frames ap)) * 0.3 in
    let out :=
      if Py.lt threshold energy_change then
        if Qeq_bool (threshold * 2) 0 then 1.0
        else Py.min 1.0 (energy_change / (threshold * 2))
      else BeatDetector.beat_intensity self * 0.7 in
    Some (BeatDetector.mk total out, out).
Proof.
  intros Hwf Hf. unfold BeatDetector.detect_beat.
  rewrite column_clamped by done. simpl.
  destruct (select_band ap Hwf 20 250 (clamped ap f)) as (s1 & -> & E1).
  destruct (select_band ap Hwf 250 1000 (clamped ap f)) as (s2 & -> & E2).
  simpl. eexists. split; [|reflexivity].
  unfold low_band_energy. by rewrite E1, E2.
Qed.

(** Attack and decay of one call, against the specification's quantities. *)
Lemma detect_beat_cases ap self f :
  wf ap -> (0 <= f)%Z ->
  let total := low_band_energy ap (clamped ap f) in
  let energy_change := total - BeatDetector.prev_energy self in
  let th := threshold ap in
  exists self' out,
    BeatDetector.detect_beat self f ap = Some (self', out)
    /\ BeatDetector.beat_intensity self' = out
    /\ BeatDetector.prev_energy self' == total
    /\ (th < energy_change ->
        (~ th == 0 -> out == Qmin 1 (energy_change / (2 * th)))
        /\ (th == 0 -> out == 1))
    /\ (energy_change <= th -> out == BeatDetector.beat_intensity self * 0.7).
Proof.
  intros Hwf Hf total energy_change th.
  destruct (detect_beat_eq ap self f Hwf Hf) as (tot & Htot & ->).
  cbv zeta. do 2 eexists. split; [reflexivity|]. simpl.
  split; [reflexivity|]. split; [exact Htot|].
  assert (Hec : tot - BeatDetector.prev_energy self == energy_change).
  { unfold energy_change, total. by rewrite Htot. }
  rewrite (lt_comp _ th _ energy_change (threshold_eq ap) Hec).
  split.
  - intros Hlt. apply lt_true in Hlt as Hb. rewrite Hb.
    assert (H2 : Np.sum (concat (magnitude ap)) / inject_Z (Z.of_nat (n_frames ap))
                 * 0.3 * 2 == 2 * th).
    { rewrite threshold_eq. fold th. ring. }
    split.
    + intros Hnz. destruct (Qeq_bool _ 0) eqn:E.
      * apply Qeq_bool_iff in E. exfalso. apply Hnz. rewrite H2 in E.
        apply (Qmult_integral 2 th) in E. destruct E as [E|E]; [discriminate E|exact E].
      * rewrite min_Qmin. rewrite Hec, H2.
        assert (H1 : 1.0 == 1) by reflexivity. rewrite H1. reflexivity.
    + intros Hz. destruct (Qeq_bool _ 0) eqn:E; [reflexivity|].
      apply Qeq_bool_neq in E. exfalso. apply E. rewrite H2, Hz. reflexivity.
  - intros Hle. apply lt_false in Hle as Hb. rewrite Hb. reflexivity.
Qed.

(** C1: on a well-formed spectrogram, for every non-negative frame index and
    every prior detector state, one call to [detect_beat] succeeds and, with
    [total] the sum of the magnitudes of the clamped frame over 20-250 Hz
    plus 250-1000 Hz, [energy_change = total - prev_energy] and
    [threshold = (sum of the whole spectrogram / number of frames) * 0.3]:
    if [energy_change > threshold] the new intensity is
    [min(1, energy_change / (2 * threshold))] (which is 1 when the threshold
    is zero, the quotient being infinite), otherwise it is the old intensity
    times 0.7; [total] becomes the stored previous energy and the new
    intensity is returned. *)
Theorem detect_beat_update ap self f :
  wf ap -> (0 <= f)%Z ->
  let total := low_band_energy ap (clamped ap f) in
  let energy_change := total - BeatDetector.prev_energy self in
  let th := threshold ap in
  exists self' out,
    BeatDetector.detect_beat self f ap = Some (self', out)
    /\ BeatDetector.beat_intensity self' = out
    /\ BeatDetector.prev_energy self' == total
    /\ (th < energy_change ->
        (~ th == 0 -> out == Qmin 1 (energy_change / (2 * th)))
        /\ (th == 0 -> out == 1))
    /\ (energy_change <= th -> out == BeatDetector.beat_intensity self * 0.7).
Proof. exact (detect_beat_cases ap self f). Qed.

Lemma detect_beat_update_witness :
  wf Sample.ap
  /\ exists self' out,
       BeatDetector.detect_beat (BeatDetector.mk 3 0.5) 5 Sample.ap = Some (self', out)
       /\ BeatDetector.beat_intensity self' = out
       /\ BeatDetector.prev_energy self' == low_band_energy Sample.ap 2.
Proof.
  assert (Hwf : wf Sample.ap) by solve_wf.
  split; [exact Hwf|].
  destruct (detect_beat_update Sample.ap (BeatDetector.mk 3 0.5) 5 Hwf ltac:(lia))
    as (self' & out & Hrun & Hint & Hprev & _).
  exists self', out. split; [exact Hrun|]. split; [exact Hint | exact Hprev].
Defined.

(** Frame 5 is clamped to frame 2, whose low-band energy is 4 + 2; the jump
    from the stored 3 exceeds the threshold 2.3, so the attack branch yields
    3 / 4.6. *)
Example detect_beat_sample :
  option_map (fun '(self', out) =>
                (Qred (BeatDetector.prev_energy self'), Qred out))
    (BeatDetector.detect_beat (BeatDetector.mk 3 0.5) 5 Sample.ap)
  = Some (6, 15 # 23).
Proof. vm_compute. reflexivity. Qed.

(** One call keeps the intensity within [0, 1]. *)
Lemma detect_beat_bounded ap self f :
  wf ap -> nonneg ap -> (0 <= f)%Z ->
  0 <= BeatDetector.beat_intensity self <= 1 ->
  exists self' out,
    BeatDetector.detect_beat self f ap = Some (self', out)
    /\ BeatDetector.beat_intensity self' = out
    /\ 0 <= out <= 1.
Proof.
  intros Hwf Hnn Hf Hold.
  destruct (detect_beat_cases ap self f Hwf Hf)
    as (self' & out & Hrun & Hint & _ & Hatt & Hdec).
  exists self', out. do 2 (split; [done|]).
  pose proof (threshold_nonneg ap Hnn) as Hth.
  destruct (Qlt_le_dec (threshold ap)
              (low_band_energy ap (clamped ap f) - BeatDetector.prev_energy self))
    as [Hlt|Hle].
  - destruct (Hatt Hlt) as [Hnz Hz].
    destruct (Qeq_dec (threshold ap) 0) as [E|E].
    + rewrite (Hz E). lra.
    + rewrite (Hnz E). split; [|apply Q.le_min_l].
      apply Q.min_glb; [lra|]. apply Qle_shift_div_l; lra.
  - rewrite (Hdec Hle). lra.
Qed.

Lemma run_bounded ap frames :
  wf ap -> nonneg ap -> Forall (fun f => 0 <= f)%Z frames ->
  forall self, 0 <= BeatDetector.beat_intensity self <= 1 ->
  exists self' outs,
    BeatDetector.run self frames ap = Some (self', outs)
    /\ length outs = length frames
    /\ Forall (fun x => 0 <= x <= 1) outs.
Proof.
  intros Hwf Hnn Hfs. induction Hfs as [|f frames Hf _ IH]; intros self Hself.
  - exists self, []. simpl. repeat split; constructor.
  - destruct (detect_beat_bounded ap self f Hwf Hnn Hf Hself)
      as (s1 & out & Hrun & Hint & Hout).
    destruct (IH s1) as (s2 & outs & Hrun2 & Hlen & Hall); [by rewrite Hint|].
    exists s2, (out :: outs). simpl. rewrite Hrun. simpl. rewrite Hrun2. simpl.
    repeat split; [by rewrite Hlen|]. by constructor.
Qed.

Lemma pow_succ (q : Q) (n : nat) : q ^ Z.of_nat (S n) == q * q ^ Z.of_nat n.
Proof.
  rewrite Nat2Z.inj_succ. unfold Z.succ.
  destruct (Qeq_dec q 0) as [E|E].
  - rewrite E. rewrite Qpower_0 by lia. ring.
  - rewrite Qpower_plus by done. rewrite Qpower_1_r. ring.
Qed.

(** Once the stored energy equals the constant per-frame energy, every
    further call multiplies the intensity by 0.7. *)
Lemma run_decay ap E frames :
  wf ap -> nonneg ap ->
  Forall (fun f => (0 <= f)%Z /\ low_band_energy ap (clamped ap f) == E) frames ->
  forall self self' outs,
    BeatDetector.prev_energy self == E ->
    BeatDetector.run self frames ap = Some (self', outs) ->
    forall n o, outs !! n = Some o ->
      o == BeatDetector.beat_intensity self * 0.7 ^ Z.of_nat (S n).
Proof.
  intros Hwf Hnn Hfs.
  induction Hfs as [|f frames [Hf HE] _ IH]; intros self self' outs Hprev Hrun n o Hn.
  - simpl in Hrun. simplify_eq.
  - simpl in Hrun.
    destruct (detect_beat_cases ap self f Hwf Hf)
      as (s1 & out & Hstep & Hint & Hp1 & _ & Hdec).
    rewrite Hstep in Hrun. simpl in Hrun.
    destruct (BeatDetector.run s1 frames ap) as [[s2 outs']|] eqn:Hrest; simplify_eq/=.
    assert (Hout : BeatDetector.beat_intensity s1 == BeatDetector.beat_intensity self * 0.7).
    { apply Hdec. pose proof (threshold_nonneg ap Hnn). rewrite HE, Hprev. lra. }
    destruct n as [|n]; simplify_eq/=.
    + rewrite Hout. reflexivity.
    + transitivity (BeatDetector.beat_intensity s1 * 0.7 ^ Z.of_nat (S n)).
      { eapply IH; [|exact Hrest|exact Hn]. by rewrite Hp1, HE. }
      rewrite Hout. rewrite (pow_succ 0.7 (S n)). ring.
Qed.

(** C4: on a well-formed, non-negative magnitude spectrogram, every sequence
    of [detect_beat] calls (at non-negative frame indices) started from the
    initial state succeeds and every returned intensity lies in [0, 1]; when
    every visited frame has the same low-band energy, the intensity returned
    by call [n] (counting from 0) is the first returned intensity times
    [0.7 ^ n], hence between 0 and [0.7 ^ n]. *)
Theorem beat_intensity_range ap frames :
  wf ap -> nonneg ap -> Forall (fun f => 0 <= f)%Z frames ->
  exists self' outs,
    BeatDetector.run BeatDetector.init frames ap = Some (self', outs)
    /\ length outs = length frames
    /\ Forall (fun x => 0 <= x <= 1) outs
    /\ forall E, Forall (fun f => low_band_energy ap (clamped ap f) == E) frames ->
       forall n first o, outs !! 0%nat = Some first -> outs !! n = Some o ->
         o == first * 0.7 ^ Z.of_nat n /\ 0 <= o <= 0.7 ^ Z.of_nat n.
Proof.
  intros Hwf Hnn Hfs.
  destruct (run_bounded ap frames Hwf Hnn Hfs BeatDetector.init)
    as (self' & outs & Hrun & Hlen & Hall).
  { simpl. lra. }
  exists self', outs. do 3 (split; [done|]).
  intros E HE n first o H0 Hn.
  assert (Hgeo : o == first * 0.7 ^ Z.of_nat n).
  { destruct frames as [|f frames]; simpl in Hrun; [simplify_eq; done|].
    apply Forall_cons in Hfs as [Hf Hfs]. apply Forall_cons in HE as [HEf HE].
    destruct (detect_beat_cases ap BeatDetector.init f Hwf Hf)
      as (s1 & out & Hstep & Hint & Hp1 & _).
    rewrite Hstep in Hrun. simpl in Hrun.
    destruct (BeatDetector.run s1 frames ap) as [[s2 outs']|] eqn:Hrest; simplify_eq/=.
    destruct n as [|n]; simplify_eq/=.
    - change (0.7 ^ 0) with 1. ring.
    - eapply (run_decay ap E frames Hwf Hnn); [|by rewrite Hp1, HEf|exact Hrest|exact Hn].
      apply Forall_forall. intros x Hx. split.
      + by eapply Forall_forall in Hfs.
      + by eapply Forall_forall in HE. }
  split; [exact Hgeo|].
  pose proof (proj1 (Forall_lookup _ _) Hall 0%nat first H0) as Hfirst. simpl in Hfirst.
  pose proof (proj1 (Forall_lookup _ _) Hall n o Hn) as Ho. simpl in Ho.
  split; [lra|]. rewrite Hgeo.
  assert (Hp : 0 <= 0.7 ^ Z.of_nat n) by (apply Qpower_0_le; lra).
  nra.
Qed.

Lemma beat_intensity_range_witness :
  wf Sample.steady /\ nonneg Sample.steady
  /\ exists self' outs,
       BeatDetector.run BeatDetector.init [0; 1; 2; 3; 4]%Z Sample.steady
       = Some (self', outs)
       /\ Forall (fun x => 0 <= x <= 1) outs
       /\ forall first o, outs !! 0%nat = Some first -> outs !! 3%nat = Some o ->
            o == first * 0.7 ^ 3.
Proof.
  assert (Hwf : wf Sample.steady) by solve_wf.
  assert (Hnn : nonneg Sample.steady) by (unfold nonneg; simpl; solve_entries).
  split; [exact Hwf|]. split; [exact Hnn|].
  destruct (beat_intensity_range Sample.steady [0; 1; 2; 3; 4]%Z Hwf Hnn)
    as (self' & outs & Hrun & _ & Hall & Hgeo).
  { repeat constructor; lia. }
  exists self', outs. split; [exact Hrun|]. split; [exact Hall|].
  intros first o H0 H3.
  assert (HE : Forall (fun f => low_band_energy Sample.steady
                                 (clamped Sample.steady f) == 6)
                      [0; 1; 2; 3; 4]%Z)
    by (repeat constructor; reflexivity).
  destruct (Hgeo 6 HE 3%nat first o H0 H3) as [Hg _]. exact Hg.
Defined.

(** With constant energy 6 per frame the first call attacks (intensity 1)
    and each later call multiplies by 0.7. *)
Example beat_run_steady :
  option_map (fun '(_, outs) => map Qred outs)
    (BeatDetector.run BeatDetector.init [0; 1; 2; 3; 4]%Z Sample.steady)
  = Some [1; 0.7; 0.49; 0.343; 0.2401].
Proof. vm_compute. reflexivity. Qed.

(** ** Volume intensity of a silent track *)

Lemma max_int_zeros n : FloatAudio.max_int (replicate (S n) 0%Z) = Some 0%Z.
Proof.
  simpl. f_equal. induction n as [|n IH]; [done|]. simpl. exact IH.
Qed.

Lemma sum_nan (l : list Ieee.t) : Ieee.NaN ∈ l -> Ieee.sum l = Ieee.NaN.
Proof.
  induction l as [|x l IH]; [by intros ?%elem_of_nil|].
  intros [<-|Hin]%elem_of_cons; unfold Ieee.sum in *; simpl.
  - done.
  - rewrite (IH Hin). by destruct x.
Qed.

Lemma mean_nan (l : list Ieee.t) : Ieee.NaN ∈ l -> Ieee.mean l = Ieee.NaN.
Proof. intros Hin. unfold Ieee.mean. by rewrite (sum_nan l Hin). Qed.

Lemma max_nan (l : list Ieee.t) : Ieee.NaN ∈ l -> Ieee.max l = Some Ieee.NaN.
Proof.
  destruct l as [|x xs]; [by intros ?%elem_of_nil|]. intros Hin. simpl. f_equal.
  assert (H : Ieee.is_nan x = true \/ Ieee.NaN ∈ xs).
  { apply elem_of_cons in Hin as [<-|Hin]; [by left | by right]. }
  clear Hin. revert x H. induction xs as [|y ys IH]; intros x [Hx|Hin]; simpl.
  - by destruct x.
  - by apply elem_of_nil in Hin.
  - apply IH. left. by rewrite Hx.
  - apply IH. apply elem_of_cons in Hin as [<-|Hin].
    + left. by destruct (Ieee.is_nan x) eqn:E.
    + by right.
Qed.

Lemma select_replicate {A} (x : A) (mask : list bool) :
  exists k,
    Np.select mask (replicate (length mask) x) = Some (replicate k x)
    /\ (0 <? k)%nat = existsb (fun b : bool => b) mask.
Proof.
  induction mask as [|b mask (k & IH & Hk)]; [by exists 0%nat|]. simpl.
  rewrite IH. simpl. destruct b; simpl.
  - by exists (S k).
  - by exists k.
Qed.

(** The value of one band on a frame whose bins all hold NaN. *)
Lemma nan_band_value (sp : FloatAudio.t) (band : Band.t) :
  let mask := FloatAudio.band_mask sp (Band.min band) (Band.max band) in
  (band_data ← Np.select mask
                 (replicate (length (FloatAudio.frequencies sp)) Ieee.NaN);
   Some (if (0 <? length band_data)%nat then Ieee.mean band_data
         else Ieee.Fin 0))
  = Some (if existsb (in_band (Band.min band) (Band.max band))
                     (FloatAudio.frequencies sp)
          then Ieee.NaN else Ieee.Fin 0).
Proof.
  unfold FloatAudio.band_mask. cbv zeta.
  set (g := fun f => Qle_bool (Band.min band) f && Qle_bool f (Band.max band)).
  assert (Hg : existsb (in_band (Band.min band) (Band.max band))
                 (FloatAudio.frequencies sp)
               = existsb (fun b : bool => b) (map g (FloatAudio.frequencies sp))).
  { induction (FloatAudio.frequencies sp) as [|f fs IH]; [done|].
    simpl. by rewrite IH. }
  rewrite Hg.
  replace (length (FloatAudio.frequencies sp))
    with (length (map g (FloatAudio.frequencies sp))) by apply length_map.
  destruct (select_replicate Ieee.NaN (map g (FloatAudio.frequencies sp)))
    as (k & -> & Hk).
  simpl. rewrite length_replicate, <- Hk. f_equal.
  destruct k as [|k]; [done|]. simpl.
  apply mean_nan. apply elem_of_cons. by left.
Qed.

(** C8: silent audio does not give volume intensity 0.  The loader divides
    the all-zero samples by their peak 0, so every normalised sample is NaN;
    and at a frame whose bins all hold NaN, with a band that contains a
    bin, the guard [np.max(...) > 0] is false for the NaN maximum, the
    denominator is 1, and the volume intensity is NaN: no exception, but
    not 0 either. *)
Theorem silent_audio_volume_is_nan :
  (forall n,
      FloatAudio.normalize (replicate (S n) 0%Z)
      = Some (replicate (S n) Ieee.NaN))
  /\ (forall sp f bands i band j fr,
        nan_frame sp f ->
        bands !! i = Some band ->
        FloatAudio.frequencies sp !! j = Some fr ->
        in_band (Band.min band) (Band.max band) fr = true ->
        Ieee.max (concat (FloatAudio.magnitude sp)) = Some Ieee.NaN
        /\ FloatAudio.volume_intensity sp f bands = Some Ieee.NaN
        /\ forall q, FloatAudio.volume_intensity sp f bands <> Some (Ieee.Fin q)).
Proof.
  split.
  - intros n. unfold FloatAudio.normalize.
    change (map ?f ?l) with (f <$> l). rewrite fmap_replicate.
    change (FloatAudio.abs_int16 0) with 0%Z. rewrite max_int_zeros. simpl.
    f_equal. f_equal. change (map ?f ?l) with (f <$> l).
    by rewrite fmap_replicate.
  - intros sp f bands i band j fr Hnan Hband Hfr Hin.
    assert (Hmax : Ieee.max (concat (FloatAudio.magnitude sp)) = Some Ieee.NaN).
    { apply max_nan. unfold nan_frame, FloatAudio.column in Hnan.
      destruct (Py.index _ _) as [k|]; [|done]. simpl in Hnan.
      destruct (FloatAudio.frequencies sp) as [|f0 fs]; [done|].
      destruct (FloatAudio.magnitude sp) as [|row rows]; [done|].
      simpl in Hnan. destruct (row !! k) as [x|] eqn:Hx; [|done]. simpl in Hnan.
      destruct (mapM _ rows); [|done]. simpl in Hnan. injection Hnan as -> _.
      simpl. apply elem_of_app. left. by eapply list_elem_of_lookup_2. }
    assert (Hvol : FloatAudio.volume_intensity sp f bands = Some Ieee.NaN).
    { unfold FloatAudio.volume_intensity, FloatAudio.get_band_values. cbv zeta.
      unfold nan_frame in Hnan. rewrite Hnan. simpl.
      rewrite (mapM_pointwise _
                 (fun band => if existsb (in_band (Band.min band) (Band.max band))
                                         (FloatAudio.frequencies sp)
                              then Ieee.NaN else Ieee.Fin 0)).
      2: { apply Forall_forall. intros b _. apply nan_band_value. }
      simpl. rewrite Hmax. simpl.
      rewrite length_map.
      destruct bands as [|b0 bands']; [done|].
      change (0 <? length (b0 :: bands'))%nat with true. cbv iota.
      rewrite mean_nan; [done|].
      change (map ?h ?l) with (h <$> l).
      apply list_elem_of_fmap. exists band. split.
      - assert (He : existsb (in_band (Band.min band) (Band.max band))
                       (FloatAudio.frequencies sp) = true).
        { apply existsb_exists. exists fr. split; [|done].
          apply list_elem_of_In. by eapply list_elem_of_lookup_2. }
        by rewrite He.
      - by eapply list_elem_of_lookup_2. }
    split; [exact Hmax|]. split; [exact Hvol|]. intros q. by rewrite Hvol.
Qed.

Lemma silent_audio_volume_is_nan_witness :
  nan_frame Sample.nan_frames 0
  /\ FloatAudio.normalize Sample.silence = Some (replicate 8 Ieee.NaN)
  /\ FloatAudio.volume_intensity Sample.nan_frames 0 Config.FREQUENCY_BANDS
     = Some Ieee.NaN.
Proof.
  assert (Hnan : nan_frame Sample.nan_frames 0) by reflexivity.
  split; [exact Hnan|]. split.
  - exact (proj1 silent_audio_volume_is_nan 7%nat).
  - exact (proj1 (proj2 (proj2 silent_audio_volume_is_nan
                           Sample.nan_frames 0%Z Config.FREQUENCY_BANDS
                           3%nat _ 1%nat _ Hnan eq_refl eq_refl eq_refl))).
Defined.

(** Silence next to one sample at the negative end of the range: the peak
    is still 0, and the quotients are NaN and minus infinity. *)
Example normalize_wrapped_peak :
  FloatAudio.normalize [0; -32768]%Z = Some [Ieee.NaN; Ieee.Inf true].
Proof. reflexivity. Qed.

(** A frame index clamped onto the finite last frame of the sample gives 0
    there: the NaN maximum only switches the denominator to 1. *)
Example finite_frame_after_nan :
  FloatAudio.volume_intensity Sample.nan_frames 1 Config.FREQUENCY_BANDS
  = Some Ieee.NaN
  /\ exists q,
       FloatAudio.volume_intensity Sample.nan_frames 7 Config.FREQUENCY_BANDS
       = Some (Ieee.Fin q)
       /\ q == 0.
Proof.
  split; [vm_compute; reflexivity|].
  eexists. split; [vm_compute; reflexivity | reflexivity].
Qed.

(** ** Hue offset *)

Lemma animate_hue_range vs self :
  0 <= Visualizer.hue_offset self < 360 ->
  0 <= Visualizer.hue_offset (Visualizer.animate vs self) < 360.
Proof.
  revert self. induction vs as [|v vs IH]; intros self Hself; [done|].
  simpl. apply IH. simpl. apply fmod_range. lra.
Qed.

(** C7: starting from [hue_offset = 0], after any number of per-frame
    updates [hue_offset = (hue_offset + 0.5 + volume_intensity) mod 360]
    (for any volume intensities, in particular non-negative ones) the hue
    offset satisfies [0 <= hue_offset < 360]. *)
Theorem hue_offset_range (vs : list Q) :
  0 <= Visualizer.hue_offset (Visualizer.animate vs Visualizer.anim_init) < 360.
Proof. apply animate_hue_range. simpl. lra. Qed.

Example hue_offset_sample :
  Qred (Visualizer.hue_offset
          (Visualizer.animate [0.5; 1; 400; 0.25] Visualizer.anim_init))
  = 175 # 4.
Proof. vm_compute. reflexivity. Qed.

(** ** Cut-out compositing *)

Lemma channel_sum_pos w :
  valid_pixel w ->
  (0 <? Visualizer.channel_sum w)%Z = true <-> Visualizer.channel_sum w <> 0%Z.
Proof.
  destruct w as [[r g] b]. unfold valid_pixel, is_uint8. simpl.
  intros (Hr & Hg & Hb). rewrite Z.ltb_lt. lia.
Qed.

(** C6: compositing a waveform canvas of 8-bit pixels onto a working image
    of the same dimensions succeeds, keeps the dimensions, and at every
    position the result holds the waveform pixel when that pixel's channel
    sum is nonzero and the untouched working-image pixel when it is zero. *)
Theorem composite_cutout (img wave : Visualizer.image) :
  valid_image wave ->
  Visualizer.width img = Visualizer.width wave ->
  Visualizer.height img = Visualizer.height wave ->
  length (Visualizer.pixels img) = length (Visualizer.pixels wave) ->
  exists out,
    Visualizer.composite img wave = Some out
    /\ Visualizer.width out = Visualizer.width img
    /\ Visualizer.height out = Visualizer.height img
    /\ length (Visualizer.pixels out) = length (Visualizer.pixels img)
    /\ forall i p w,
         Visualizer.pixels img !! i = Some p ->
         Visualizer.pixels wave !! i = Some w ->
         (Visualizer.channel_sum w <> 0%Z -> Visualizer.pixels out !! i = Some w)
         /\ (Visualizer.channel_sum w = 0%Z -> Visualizer.pixels out !! i = Some p).
Proof.
  intros [_ Hvalid] Hw Hh Hlen. unfold Visualizer.composite.
  destruct (put_select (fun p => (0 <? Visualizer.channel_sum p)%Z)
              (Visualizer.pixels wave) (Visualizer.pixels img) Hlen)
    as (vals & -> & Hput).
  simpl. rewrite Hw, Hh, !Nat.eqb_refl. simpl. rewrite Hput. simpl.
  eexists. split; [reflexivity|]. simpl. do 2 (split; [done|]).
  split. { rewrite length_zip_with. lia. }
  intros i p w Hp Hwv.
  assert (Hvw : valid_pixel w).
  { by eapply (proj1 (Forall_lookup _ _) Hvalid). }
  rewrite lookup_zip_with, Hp, Hwv. simpl.
  destruct (0 <? Visualizer.channel_sum w)%Z eqn:E.
  - apply channel_sum_pos in E; [|done]. split; [done|]. intros; congruence.
  - split; [|done]. intros Hne. apply channel_sum_pos in Hne; [|done]. congruence.
Qed.

Lemma composite_cutout_witness :
  valid_image Sample.wave
  /\ exists out,
       Visualizer.composite Sample.img Sample.wave = Some out
       /\ Visualizer.pixels out !! 1%nat = Some Sample.red
       /\ Visualizer.pixels out !! 2%nat = Some Sample.grey.
Proof.
  assert (Hv : valid_image Sample.wave).
  { split; [reflexivity|]. repeat constructor; lia. }
  split; [exact Hv|].
  destruct (composite_cutout Sample.img Sample.wave Hv eq_refl eq_refl eq_refl)
    as (out & Hout & _ & _ & _ & Hpix).
  exists out. split; [exact Hout|]. split.
  - refine (proj1 (Hpix 1%nat Sample.grey Sample.red eq_refl eq_refl) _).
    simpl. lia.
  - exact (proj2 (Hpix 2%nat Sample.grey Sample.black eq_refl eq_refl) eq_refl).
Defined.

Example composite_sample :
  Visualizer.composite Sample.img Sample.wave
  = Some (Visualizer.mk_image 2 2
            [Sample.grey; Sample.red; Sample.grey; Sample.grey]).
Proof. reflexivity. Qed.

(** ** Palette fallback *)

(** C9: for a palette name that is not a key of [COLOR_PALETTES],
    [_setup_bands] does not raise: it keeps the default hue offsets
    0, 45, ..., 315 of the eight bands and sets every band's saturation and
    brightness to 1.0, which is exactly the band list the rainbow palette
    produces. *)
Theorem unknown_palette_falls_back (color_palette : string) :
  Config.COLOR_PALETTES !! color_palette = None ->
  exists bands,
    Visualizer._setup_bands color_palette = Some bands
    /\ map Band.hue_offset bands = [0; 45; 90; 135; 180; 225; 270; 315]
    /\ Forall (fun b => Band.saturation b = Some 1.0 /\ Band.brightness b = Some 1.0)
              bands
    /\ Visualizer._setup_bands "rainbow" = Some bands.
Proof.
  intros Hnone. unfold Visualizer._setup_bands. rewrite Hnone.
  eexists. split; [reflexivity|]. split; [reflexivity|]. split.
  - repeat constructor.
  - vm_compute. reflexivity.
Qed.

Lemma unknown_palette_witness :
  Config.COLOR_PALETTES !! "neon"%string = None
  /\ exists bands,
       Visualizer._setup_bands "neon" = Some bands
       /\ map Band.hue_offset bands = [0; 45; 90; 135; 180; 225; 270; 315]
       /\ Visualizer._setup_bands "rainbow" = Some bands.
Proof.
  assert (Hnone : Config.COLOR_PALETTES !! "neon"%string = None)
    by (vm_compute; reflexivity).
  split; [exact Hnone|].
  destruct (unknown_palette_falls_back "neon" Hnone) as (bands & Hb & Hhue & _ & Hr).
  exists bands. split; [exact Hb|]. split; [exact Hhue | exact Hr].
Defined.

(** A known palette, for contrast, replaces the hue offsets. *)
Example fire_palette_hues :
  option_map (map Band.hue_offset) (Visualizer._setup_bands "fire")
  = Some [0; 10; 20; 30; 40; 25; 15; 35].
Proof. vm_compute. reflexivity. Qed.

(** ** HSV conversion *)

(** One output channel: boosted by 1.2, capped at 255, truncated. *)
Lemma channel_comp t t' :
  t == t' ->
  Py.int (Py.min 255 (t * 255 * 1.2)) = Py.int (Py.min 255 (t' * 255 * 1.2)).
Proof. intros H. apply int_comp, min_comp. by rewrite H. Qed.

Lemma channel_range t :
  0 <= t -> (0 <= Py.int (Py.min 255 (t * 255 * 1.2)) <= 255)%Z.
Proof.
  intros Ht. set (y := t * 255 * 1.2).
  assert (Hy : 0 <= y) by (unfold y; lra).
  assert (Hm : 0 <= Py.min 255 y <= 255).
  { unfold Py.min. destruct (Py.lt y 255) eqn:E.
    - apply lt_true in E. lra.
    - lra. }
  destruct Hm as [Hm0 Hm1]. rewrite int_nonneg by done. split.
  - change 0%Z with (Qfloor 0). by apply Qfloor_resp_le.
  - change 255%Z with (Qfloor 255). by apply Qfloor_resp_le.
Qed.

Lemma chroma_x_range c u :
  0 <= c -> 0 <= u < 2 -> 0 <= c * (1 - Qabs (u - 1)) <= c.
Proof.
  intros Hc Hu.
  assert (Ha : Qabs (u - 1) <= 1) by (apply Qabs_Qle_condition; lra).
  pose proof (Qabs_nonneg (u - 1)). nra.
Qed.

(** Only the hue reduced modulo 360 matters. *)
Lemma hsv_to_rgb_comp h h' s v :
  Py.fmod h 360 == Py.fmod h' 360 ->
  Effects.hsv_to_rgb h s v = Effects.hsv_to_rgb h' s v.
Proof.
  intros H. unfold Effects.hsv_to_rgb. cbv zeta.
  set (h0 := Py.fmod h 360) in *. set (h1 := Py.fmod h' 360) in *.
  assert (Hx : v * s * (1 - Qabs (Py.fmod (h0 / 60) 2 - 1))
               == v * s * (1 - Qabs (Py.fmod (h1 / 60) 2 - 1))).
  { assert (Hf : Py.fmod (h0 / 60) 2 == Py.fmod (h1 / 60) 2).
    { apply fmod_comp. by rewrite H. }
    by rewrite Hf. }
  set (x0 := v * s * (1 - Qabs (Py.fmod (h0 / 60) 2 - 1))) in *.
  set (x1 := v * s * (1 - Qabs (Py.fmod (h1 / 60) 2 - 1))) in *.
  rewrite (lt_comp h0 h1 60 60 H (Qeq_refl _)), (lt_comp h0 h1 120 120 H (Qeq_refl _)),
    (lt_comp h0 h1 180 180 H (Qeq_refl _)), (lt_comp h0 h1 240 240 H (Qeq_refl _)),
    (lt_comp h0 h1 300 300 H (Qeq_refl _)).
  repeat (destruct (Py.lt h1 _);
          [apply (f_equal2 pair); [apply (f_equal2 pair)|];
           apply channel_comp; by rewrite ?Hx|]).
  apply (f_equal2 pair); [apply (f_equal2 pair)|]; apply channel_comp; by rewrite ?Hx.
Qed.

(** C10: for every hue (negative, or at or above 360, included), every
    saturation in [0, 1] and every brightness in [0, 1], [hsv_to_rgb]
    returns a triple of integers each within [0, 255], and the triple is the
    one obtained from the hue reduced modulo 360. *)
Theorem hsv_to_rgb_range h s v :
  0 <= s <= 1 -> 0 <= v <= 1 ->
  exists r g b : Z,
    Effects.hsv_to_rgb h s v = (r, g, b)
    /\ (0 <= r <= 255)%Z /\ (0 <= g <= 255)%Z /\ (0 <= b <= 255)%Z
    /\ Effects.hsv_to_rgb (Py.fmod h 360) s v = (r, g, b).
Proof.
  intros Hs Hv.
  rewrite (hsv_to_rgb_comp (Py.fmod h 360) h s v) by (apply fmod_idem; lra).
  unfold Effects.hsv_to_rgb. cbv zeta.
  set (h0 := Py.fmod h 360).
  assert (Hc : 0 <= v * s) by nra.
  assert (Hm : 0 <= v - v * s) by nra.
  pose proof (chroma_x_range (v * s) (Py.fmod (h0 / 60) 2) Hc
                (fmod_range (h0 / 60) 2 ltac:(lra))) as Hx.
  set (x := v * s * (1 - Qabs (Py.fmod (h0 / 60) 2 - 1))) in *.
  repeat (destruct (Py.lt h0 _);
          [do 3 eexists; split; [reflexivity|];
           repeat split; apply channel_range; lra|]).
  do 3 eexists; split; [reflexivity|]; repeat split; apply channel_range; lra.
Qed.

Lemma hsv_to_rgb_range_witness :
  (0 <= 0.5 <= 1) /\ (0 <= 0.9 <= 1)
  /\ exists r g b : Z,
       Effects.hsv_to_rgb (-160) 0.5 0.9 = (r, g, b)
       /\ (0 <= r <= 255)%Z /\ (0 <= g <= 255)%Z /\ (0 <= b <= 255)%Z.
Proof.
  assert (Hs : 0 <= 0.5 <= 1) by (split; by apply Qle_bool_iff).
  assert (Hv : 0 <= 0.9 <= 1) by (split; by apply Qle_bool_iff).
  split; [exact Hs|]. split; [exact Hv|].
  destruct (hsv_to_rgb_range (-160) 0.5 0.9 Hs Hv)
    as (r & g & b & Heq & Hr & Hg & Hb & _).
  exists r, g, b. split; [exact Heq|]. split; [exact Hr|]. split; [exact Hg | exact Hb].
Defined.

(** Hue -160 is hue 200; the brightest channel hits the cap. *)
Example hsv_to_rgb_samples :
  Effects.hsv_to_rgb (-160) 0.5 0.9 = (137, 229, 255)%Z
  /\ Effects.hsv_to_rgb 200 0.5 0.9 = (137, 229, 255)%Z
  /\ Effects.hsv_to_rgb 0 1 1 = (255, 0, 0)%Z
  /\ Effects.hsv_to_rgb 725 1 0.2 = (61, 5, 0)%Z.
Proof. repeat split; vm_compute; reflexivity. Qed.

(** ** Ring squeeze against waveform distortion *)
Section Distortions.
Local Open Scope R_scope.

Lemma sin_cos_sq t : sin t * sin t + cos t * cos t = 1.
Proof. pose proof (sin2_cos2 t) as H. unfold Rsqr in H. exact H. Qed.

Lemma ring_distortion_range a : 0.2 <= Effects.ring_distortion a <= 1.
Proof.
  unfold Effects.ring_distortion. pose proof (COS_bound (a * 2)) as [Hlo Hhi]. lra.
Qed.

Lemma waveform_distortion_range a : -0.3 <= Visualizer.waveform_distortion a <= 0.3.
Proof.
  unfold Visualizer.waveform_distortion.
  pose proof (SIN_bound (a * 2)) as [Hlo Hhi]. lra.
Qed.

(** The two formulas never meet: [0.4 cos t - 0.3 sin t] has amplitude
    0.5, below the offset 0.6. *)
Lemma distortion_gap a :
  0.1 <= Effects.ring_distortion a - Visualizer.waveform_distortion a.
Proof.
  unfold Effects.ring_distortion, Visualizer.waveform_distortion.
  pose proof (sin_cos_sq (a * 2)) as H.
  set (s := sin (a * 2)) in *. set (c := cos (a * 2)) in *.
  assert (Hsq : (0.4 * c - 0.3 * s) * (0.4 * c - 0.3 * s) <= 0.25).
  { pose proof (Rle_0_sqr (0.3 * c + 0.4 * s)) as H0. unfold Rsqr in H0. nra. }
  nra.
Qed.

(** C2, as stated, fails: at a rotation of pi/4 the ring modes scale by
    0.6 while the waveform distortion is 0.3. *)
Lemma ring_formula_counterexample :
  Effects.ring_distortion (PI / 4) = 0.6
  /\ Visualizer.waveform_distortion (PI / 4) = 0.3
  /\ ~ (forall angle,
          Effects.ring_distortion angle = Visualizer.waveform_distortion angle).
Proof.
  assert (H1 : Effects.ring_distortion (PI / 4) = 0.6).
  { unfold Effects.ring_distortion. replace (PI / 4 * 2) with (PI / 2) by field.
    rewrite cos_PI2. lra. }
  assert (H2 : Visualizer.waveform_distortion (PI / 4) = 0.3).
  { unfold Visualizer.waveform_distortion. replace (PI / 4 * 2) with (PI / 2) by field.
    rewrite sin_PI2. lra. }
  split; [done|]. split; [done|]. intros Hall.
  specialize (Hall (PI / 4)). rewrite H1, H2 in Hall. lra.
Qed.

(** C2, amended: for every rotation angle the ['x'] ring mode leaves the
    width at [ring_size] and truncates [ring_size * (0.6 + 0.4 cos(2 angle))]
    for the height, the ['y'] mode does the same with width and height
    exchanged, and this squeeze factor lies in [0.2, 1]; the waveform's
    x/y matrices use the distortion [0.3 sin(2 angle)], which lies in
    [-0.3, 0.3], and the two quantities differ by at least 0.1 at every
    angle. *)
Theorem ring_squeeze_formula (angle : R) (ring_size : Z) :
  Effects.ring_shape "x" ring_size angle
  = (ring_size, Effects.Rint (IZR ring_size * (0.6 + 0.4 * cos (2 * angle))))
  /\ Effects.ring_shape "y" ring_size angle
     = (Effects.Rint (IZR ring_size * (0.6 + 0.4 * cos (2 * angle))), ring_size)
  /\ 0.2 <= Effects.ring_distortion angle <= 1
  /\ Visualizer.waveform_distortion angle = 0.3 * sin (2 * angle)
  /\ (forall height,
        Visualizer._get_x_rotation_matrix angle height
        = (1, 0, 0, 0.3 * sin (2 * angle), 1,
           - height * (0.3 * sin (2 * angle)) / 2, 0, 0))
  /\ (forall width,
        Visualizer._get_y_rotation_matrix angle width
        = (1, 0.3 * sin (2 * angle), - width * (0.3 * sin (2 * angle)) / 2,
           0, 1, 0, 0, 0))
  /\ -0.3 <= Visualizer.waveform_distortion angle <= 0.3
  /\ 0.1 <= Effects.ring_distortion angle - Visualizer.waveform_distortion angle.
Proof.
  replace (2 * angle) with (angle * 2) by ring.
  split; [reflexivity|]. split; [reflexivity|].
  split; [apply ring_distortion_range|]. split; [reflexivity|].
  split; [reflexivity|]. split; [reflexivity|].
  split; [apply waveform_distortion_range|apply distortion_gap].
Qed.

End Distortions.

(** * Further properties of the rendering code *)

(** ** Truncation *)

Lemma int_range (lo hi : Z) (x : Q) :
  0 <= x -> inject_Z lo <= x -> x <= inject_Z hi -> (lo <= Py.int x <= hi)%Z.
Proof.
  intros H0 Hlo Hhi. rewrite int_nonneg by done. split.
  - rewrite <- (Qfloor_Z lo). by apply Qfloor_resp_le.
  - rewrite <- (Qfloor_Z hi). by apply Qfloor_resp_le.
Qed.

Lemma int_lt (x : Q) (c : Z) : 0 <= x -> x < inject_Z c -> (Py.int x < c)%Z.
Proof.
  intros H0 Hx. rewrite int_nonneg by done.
  pose proof (Qfloor_le x) as Hf. rewrite Zlt_Qlt. lra.
Qed.

Lemma int_mono (x y : Q) : x <= y -> (Py.int x <= Py.int y)%Z.
Proof.
  intros Hxy. unfold Py.int.
  destruct (Qle_bool 0 x) eqn:Ex; destruct (Qle_bool 0 y) eqn:Ey.
  - by apply Qfloor_resp_le.
  - apply Qle_bool_iff in Ex.
    assert (~ 0 <= y) by (intros ?%Qle_bool_iff; congruence). lra.
  - assert (Hx : ~ 0 <= x) by (intros ?%Qle_bool_iff; congruence).
    apply Qle_bool_iff in Ey.
    assert ((Qceiling x <= 0)%Z).
    { change 0%Z with (Qceiling 0). apply Qceiling_resp_le. lra. }
    assert ((0 <= Qfloor y)%Z).
    { change 0%Z with (Qfloor 0). by apply Qfloor_resp_le. }
    lia.
  - by apply Qceiling_resp_le.
Qed.

Lemma astype_uint8_small (x : Q) :
  0 <= x -> x < 256 -> Np.astype_uint8 x = Py.int x.
Proof.
  intros H0 H1. unfold Np.astype_uint8.
  assert ((0 <= Py.int x)%Z).
  { rewrite int_nonneg by done. change 0%Z with (Qfloor 0). by apply Qfloor_resp_le. }
  assert ((Py.int x < 256)%Z) by (apply int_lt; [done|]; exact H1).
  apply Z.mod_small. lia.
Qed.

(** Closed order facts between rational literals. *)
Ltac q_literal := first [by apply Qle_bool_iff | by vm_compute].

(** ** Ranges of the spectral queries *)

Lemma sum_upper (g : Q) (l : list Q) :
  Forall (fun x => x <= g) l -> Np.sum l <= inject_Z (Z.of_nat (length l)) * g.
Proof.
  induction 1 as [|x l Hx _ IH].
  - unfold Np.sum. simpl. rewrite Qmult_0_l. apply Qle_refl.
  - change (Np.sum (x :: l)) with (x + Np.sum l).
    change (length (x :: l)) with (S (length l)).
    rewrite Nat2Z.inj_succ. unfold Z.succ. rewrite inject_Z_plus.
    change (inject_Z 1) with 1. lra.
Qed.

Lemma mean_range (g : Q) (l : list Q) :
  l <> [] -> Forall (fun x => 0 <= x <= g) l -> 0 <= Np.mean l <= g.
Proof.
  intros Hne Hl. unfold Np.mean.
  assert (Hn : 0 < inject_Z (Z.of_nat (length l))).
  { destruct l; [done|]. simpl length. inj_order. }
  assert (H0 : 0 <= Np.sum l).
  { apply sum_nonneg. eapply Forall_impl; [exact Hl|]. simpl. intros x [? _]. done. }
  assert (H1 : Np.sum l <= inject_Z (Z.of_nat (length l)) * g).
  { apply sum_upper. eapply Forall_impl; [exact Hl|]. simpl. intros x [_ ?]. done. }
  split.
  - apply Qle_shift_div_l; lra.
  - apply Qle_shift_div_r; lra.
Qed.

(** Entries of a band slice are entries of the magnitude array. *)
Lemma slice_entries ap band k x :
  (forall row, row ∈ magnitude ap -> (k < length row)%nat) ->
  x ∈ band_slice ap band k -> exists row, row ∈ magnitude ap /\ x ∈ row.
Proof.
  unfold band_slice. generalize (frequencies ap) as fs.
  induction (magnitude ap) as [|row rows IH]; intros [|f fs] Hk Hx; simpl in Hx;
    try by apply elem_of_nil in Hx.
  apply elem_of_app in Hx as [Hx|Hx].
  - destruct (in_band _ _ f); [|by apply elem_of_nil in Hx].
    apply list_elem_of_singleton in Hx as ->. exists row. split; [by left|].
    unfold at_frame. destruct (lookup_lt_is_Some_2 row k) as [y Hy].
    { apply Hk. by left. }
    rewrite Hy. simpl. by eapply list_elem_of_lookup_2.
  - destruct (IH fs) as (row' & Hrow & Hin); [|done|].
    { intros r Hr. apply Hk. by right. }
    exists row'. split; [by right|done].
Qed.

Lemma slice_range ap band f g :
  wf ap -> nonneg ap -> (0 <= f)%Z ->
  Forall (Forall (fun x => x <= g)) (magnitude ap) ->
  Forall (fun x => 0 <= x <= g) (band_slice ap band (clamped ap f)).
Proof.
  intros Hwf Hnn Hf Hg. apply Forall_forall. intros x Hx.
  destruct (clamp_index ap Hwf f Hf) as [_ Hk].
  destruct Hwf as (_ & Hrows & _).
  apply slice_entries in Hx as (row & Hrow & Hin).
  - split.
    + unfold nonneg in Hnn. eapply Forall_forall in Hnn; [|exact Hrow].
      by eapply Forall_forall in Hnn.
    + eapply Forall_forall in Hg; [|exact Hrow]. by eapply Forall_forall in Hg.
  - intros row Hrow. eapply Forall_forall in Hrows; [|exact Hrow].
    simpl in Hrows. lia.
Qed.

Lemma band_value_range ap band f g :
  wf ap -> nonneg ap -> (0 <= f)%Z -> 0 <= g ->
  Forall (Forall (fun x => x <= g)) (magnitude ap) ->
  0 <= band_value ap (clamped ap f) band <= g.
Proof.
  intros Hwf Hnn Hf Hg0 Hg. unfold band_value. cbv zeta.
  destruct (Nat.ltb_spec 0 (length (band_slice ap band (clamped ap f)))) as [Hl|Hl].
  - apply mean_range; [|by apply slice_range].
    intros E. rewrite E in Hl. simpl in Hl. lia.
  - lra.
Qed.

Lemma global_max_bounds ap g :
  is_global_max ap g -> Forall (Forall (fun x => x <= g)) (magnitude ap).
Proof.
  intros [_ Hmax]. apply Forall_forall. intros row Hrow.
  apply Forall_forall. intros x Hx. by eapply Hmax.
Qed.

Lemma guard_quotient s g : 0 <= s -> s <= g -> 0 <= s / guard g <= 1.
Proof.
  intros Hs Hg. unfold guard. destruct (Qlt_le_dec 0 g) as [H|H].
  - split; [apply Qle_shift_div_l | apply Qle_shift_div_r]; lra.
  - assert (s == 0) as -> by lra. unfold Qdiv. rewrite Qmult_0_l. lra.
Qed.

(** X1: on a well-formed, non-negative spectrogram and for a non-negative
    frame index, [get_band_values] returns one value per band, and every
    value lies between 0 and any non-negative bound [g] of the magnitudes
    (in particular the global maximum). *)
Theorem band_values_bounded ap f bands g :
  wf ap -> nonneg ap -> (0 <= f)%Z -> 0 <= g ->
  Forall (Forall (fun x => x <= g)) (magnitude ap) ->
  exists vals,
    get_band_values ap f bands = Some vals
    /\ length vals = length bands
    /\ Forall (fun v => 0 <= v <= g) vals.
Proof.
  intros Hwf Hnn Hf Hg0 Hg. rewrite get_band_values_eq by done.
  eexists. split; [reflexivity|]. split; [by rewrite length_map|].
  apply Forall_map. apply Forall_forall. intros band _. simpl.
  by apply band_value_range.
Qed.

Lemma band_values_bounded_witness :
  wf Sample.ap /\ nonneg Sample.ap
  /\ exists vals,
       get_band_values Sample.ap 1 Config.FREQUENCY_BANDS = Some vals
       /\ length vals = 8%nat
       /\ Forall (fun v => 0 <= v <= 5) vals.
Proof.
  assert (Hwf : wf Sample.ap) by solve_wf.
  assert (Hnn : nonneg Sample.ap) by (unfold nonneg; simpl; solve_entries).
  split; [exact Hwf|]. split; [exact Hnn|].
  apply (band_values_bounded Sample.ap 1 Config.FREQUENCY_BANDS 5 Hwf Hnn);
    [lia | q_literal | simpl; solve_entries].
Defined.

(** X2: on a well-formed, non-negative spectrogram every value returned by
    [get_band_waveform] lies in [0, 1]: the normalisation by the global
    maximum is sound. *)
Theorem band_waveform_unit_range ap f band_idx bands points :
  wf ap -> nonneg ap -> (0 <= f)%Z ->
  valid_band_idx bands band_idx -> (0 <= points)%Z ->
  exists w,
    get_band_waveform ap f band_idx bands points = Some w
    /\ Forall (fun v => 0 <= v <= 1) w.
Proof.
  intros Hwf Hnn Hf Hvalid Hp.
  destruct (getitem_valid bands band_idx Hvalid) as [_ [band Hband]].
  destruct (get_band_waveform_eq ap f band_idx bands points band Hwf Hf Hp Hvalid Hband)
    as (w & Hw & Hlen & Hnil & Hcons).
  exists w. split; [exact Hw|].
  destruct (band_slice ap band (clamped ap f)) as [|s0 sl] eqn:Hsl.
  - rewrite Hnil by done. apply Forall_replicate. lra.
  - destruct Hcons as (g & Hmax & Hpts); [done|].
    apply Forall_lookup. intros i v Hv.
    assert (Hi : (i < Z.to_nat points)%nat).
    { rewrite <- Hlen. by eapply lookup_lt_Some. }
    destruct (Hpts i Hi) as (s & Hs & Hwi). rewrite Hwi in Hv. injection Hv as <-.
    pose proof (slice_range ap band f g Hwf Hnn Hf (global_max_bounds ap g Hmax))
      as Hrange.
    rewrite Hsl in Hrange.
    apply (proj1 (Forall_lookup _ _) Hrange) in Hs. simpl in Hs.
    apply guard_quotient; lra.
Qed.

Lemma band_waveform_unit_range_witness :
  wf Sample.ap /\ nonneg Sample.ap
  /\ exists w,
       get_band_waveform Sample.ap 2 4 Config.FREQUENCY_BANDS 6 = Some w
       /\ Forall (fun v => 0 <= v <= 1) w.
Proof.
  assert (Hwf : wf Sample.ap) by solve_wf.
  assert (Hnn : nonneg Sample.ap) by (unfold nonneg; simpl; solve_entries).
  split; [exact Hwf|]. split; [exact Hnn|].
  apply (band_waveform_unit_range Sample.ap 2 4 Config.FREQUENCY_BANDS 6 Hwf Hnn);
    [lia | unfold valid_band_idx; simpl; lia | lia].
Defined.

(** X3: on a well-formed, non-negative spectrogram with at least one bin the
    volume intensity computed by [render_frame] lies in [0, 1], whatever the
    band list. *)
Theorem volume_intensity_unit_range ap f bands :
  wf ap -> nonneg ap -> magnitude ap <> [] -> (0 <= f)%Z ->
  exists v, Visualizer.volume_intensity ap f bands = Some v /\ 0 <= v <= 1.
Proof.
  intros Hwf Hnn Hne Hf. unfold Visualizer.volume_intensity.
  rewrite get_band_values_eq by done. simpl.
  destruct (max_is_Some (concat (magnitude ap))) as [g Hg].
  { by apply magnitude_nonempty. }
  rewrite Hg. simpl. rewrite guard_eq.
  apply global_max in Hg. pose proof (global_max_bounds ap g Hg) as Hmax.
  destruct Hg as [(row & Hrow & Hin) _].
  assert (Hg0 : 0 <= g).
  { unfold nonneg in Hnn. eapply Forall_forall in Hnn; [|exact Hrow].
    by eapply Forall_forall in Hnn. }
  eexists. split; [reflexivity|].
  match goal with |- 0 <= ?a / _ <= 1 => assert (Ha : 0 <= a <= g) end.
  { destruct (0 <? length _)%nat eqn:E; [|lra].
    apply (mean_range g).
    - intros E'. rewrite E' in E. done.
    - apply Forall_map. apply Forall_forall. intros band _. simpl.
      by apply band_value_range. }
  apply guard_quotient; lra.
Qed.

Lemma volume_intensity_unit_range_witness :
  wf Sample.ap /\ nonneg Sample.ap
  /\ exists v,
       Visualizer.volume_intensity Sample.ap 1 Config.FREQUENCY_BANDS = Some v
       /\ 0 <= v <= 1.
Proof.
  assert (Hwf : wf Sample.ap) by solve_wf.
  assert (Hnn : nonneg Sample.ap) by (unfold nonneg; simpl; solve_entries).
  split; [exact Hwf|]. split; [exact Hnn|].
  apply (volume_intensity_unit_range Sample.ap 1 Config.FREQUENCY_BANDS Hwf Hnn);
    [discriminate | lia].
Defined.

(** ** Frame subscripts below zero *)

Lemma column_negative ap f :
  (- Z.of_nat (n_frames ap) <= f < 0)%Z ->
  column ap (clamp ap f) = column ap (clamp ap (f + Z.of_nat (n_frames ap))).
Proof.
  intros Hf. unfold clamp.
  destruct (Z.leb_spec (Z.of_nat (n_frames ap)) f); [lia|].
  destruct (Z.leb_spec (Z.of_nat (n_frames ap)) (f + Z.of_nat (n_frames ap))); [lia|].
  unfold column, Py.index.
  destruct (Z.leb_spec 0 f); [lia|]. destruct (Z.ltb_spec f 0); [|lia].
  destruct (Z.leb_spec (- Z.of_nat (n_frames ap)) f); [|lia].
  destruct (Z.leb_spec 0 (f + Z.of_nat (n_frames ap))); [|lia].
  destruct (Z.ltb_spec (f + Z.of_nat (n_frames ap)) (Z.of_nat (n_frames ap))); [|lia].
  reflexivity.
Qed.

Lemma column_below ap f :
  (f < - Z.of_nat (n_frames ap))%Z -> column ap (clamp ap f) = None.
Proof.
  intros Hf. unfold clamp.
  destruct (Z.leb_spec (Z.of_nat (n_frames ap)) f); [lia|].
  unfold column, Py.index.
  destruct (Z.leb_spec 0 f); [lia|]. destruct (Z.ltb_spec f 0); [|lia].
  destruct (Z.leb_spec (- Z.of_nat (n_frames ap)) f); [lia|].
  reflexivity.
Qed.

(** X4: the clamp only guards the upper end.  A negative frame index [f]
    with [-n_frames <= f] reads frame [f + n_frames] (counting from the
    end), in [get_band_values] and in [detect_beat] alike; a frame index
    below [-n_frames] makes both raise. *)
Theorem negative_frame_index ap self f bands :
  ((- Z.of_nat (n_frames ap) <= f < 0)%Z ->
     get_band_values ap f bands
     = get_band_values ap (f + Z.of_nat (n_frames ap)) bands
     /\ BeatDetector.detect_beat self f ap
        = BeatDetector.detect_beat self (f + Z.of_nat (n_frames ap)) ap)
  /\ ((f < - Z.of_nat (n_frames ap))%Z ->
     get_band_values ap f bands = None
     /\ BeatDetector.detect_beat self f ap = None).
Proof.
  split; intros Hf.
  - unfold get_band_values, BeatDetector.detect_beat.
    by rewrite (column_negative ap f Hf).
  - unfold get_band_values, BeatDetector.detect_beat.
    by rewrite (column_below ap f Hf).
Qed.

Lemma negative_frame_index_witness :
  get_band_values Sample.ap (-1) Config.FREQUENCY_BANDS
  = get_band_values Sample.ap 2 Config.FREQUENCY_BANDS
  /\ get_band_values Sample.ap (-4) Config.FREQUENCY_BANDS = None.
Proof.
  split.
  - apply (proj1 (negative_frame_index Sample.ap BeatDetector.init (-1)
                    Config.FREQUENCY_BANDS)).
    simpl. lia.
  - apply (proj2 (negative_frame_index Sample.ap BeatDetector.init (-4)
                    Config.FREQUENCY_BANDS)).
    simpl. lia.
Defined.

(** ** Exceptions of the waveform query *)

Lemma getitem_invalid (bands : list Band.t) band_idx :
  ~ valid_band_idx bands band_idx -> Py.getitem bands band_idx = None.
Proof.
  unfold valid_band_idx, Py.getitem, Py.index. intros H.
  destruct (Z.leb_spec 0 band_idx);
    destruct (Z.ltb_spec band_idx (Z.of_nat (length bands)));
    destruct (Z.ltb_spec band_idx 0);
    destruct (Z.leb_spec (- Z.of_nat (length bands)) band_idx);
    simpl; first [done | lia].
Qed.

(** X5: [get_band_waveform] raises when the band subscript selects no band
    of the list (whatever the other arguments), and, on a well-formed
    spectrogram, when the requested point count is negative (both
    [np.zeros] and [np.linspace] refuse it). *)
Theorem band_waveform_raises ap f band_idx bands points :
  (~ valid_band_idx bands band_idx ->
     get_band_waveform ap f band_idx bands points = None)
  /\ (wf ap -> (0 <= f)%Z -> (points < 0)%Z ->
      get_band_waveform ap f band_idx bands points = None).
Proof.
  split.
  - intros H. unfold get_band_waveform. by rewrite (getitem_invalid bands band_idx H).
  - intros Hwf Hf Hp. unfold get_band_waveform.
    destruct (Py.getitem bands band_idx) as [band|]; [|done]. simpl.
    rewrite column_clamped by done. simpl.
    rewrite band_data_slice by done. simpl.
    destruct (length _ =? 0)%nat.
    + unfold Np.zeros. by destruct (Z.ltb_spec points 0); [|lia].
    + unfold Np.linspace. by destruct (Z.ltb_spec points 0); [|lia].
Qed.

Lemma band_waveform_raises_witness :
  get_band_waveform Sample.ap 0 8 Config.FREQUENCY_BANDS 4 = None
  /\ get_band_waveform Sample.ap 0 3 Config.FREQUENCY_BANDS (-1) = None.
Proof.
  split.
  - apply (proj1 (band_waveform_raises Sample.ap 0 8 Config.FREQUENCY_BANDS 4)).
    unfold valid_band_idx. simpl. lia.
  - apply (proj2 (band_waveform_raises Sample.ap 0 3 Config.FREQUENCY_BANDS (-1)));
      [solve_wf | lia | lia].
Defined.

(** ** Beat detector: clamping and attack *)

(** X6: for every frame index at or past the frame count, [detect_beat]
    behaves exactly as at the last valid frame index, from any detector
    state. *)
Theorem detect_beat_clamps ap self f :
  (Z.of_nat (n_frames ap) <= f)%Z ->
  BeatDetector.detect_beat self f ap
  = BeatDetector.detect_beat self (last_frame ap) ap.
Proof.
  intros Hf. unfold BeatDetector.detect_beat.
  assert (Hc : clamp ap f = clamp ap (last_frame ap)).
  { unfold clamp, last_frame.
    destruct (Z.leb_spec (Z.of_nat (n_frames ap)) f); [|lia].
    destruct (Z.leb_spec (Z.of_nat (n_frames ap)) (Z.of_nat (n_frames ap) - 1));
      [lia|done]. }
  by rewrite Hc.
Qed.

Lemma detect_beat_clamps_witness :
  BeatDetector.detect_beat BeatDetector.init 7 Sample.ap
  = BeatDetector.detect_beat BeatDetector.init 2 Sample.ap.
Proof.
  apply (detect_beat_clamps Sample.ap BeatDetector.init 7). simpl. lia.
Defined.

(** X7: on a well-formed, non-negative spectrogram, whenever the energy
    change exceeds the threshold (a beat is detected) the returned intensity
    is at least 1/2 and at most 1, whatever the previous intensity. *)
Theorem attack_at_least_half ap self f :
  wf ap -> nonneg ap -> (0 <= f)%Z ->
  threshold ap < low_band_energy ap (clamped ap f) - BeatDetector.prev_energy self ->
  exists self' out,
    BeatDetector.detect_beat self f ap = Some (self', out)
    /\ 1 # 2 <= out <= 1.
Proof.
  intros Hwf Hnn Hf Hlt.
  destruct (detect_beat_cases ap self f Hwf Hf)
    as (self' & out & Hrun & _ & _ & Hatt & _).
  exists self', out. split; [exact Hrun|].
  destruct (Hatt Hlt) as [Hnz Hz].
  pose proof (threshold_nonneg ap Hnn) as Hth.
  destruct (Qeq_dec (threshold ap) 0) as [E|E].
  - rewrite (Hz E). lra.
  - rewrite (Hnz E). split; [|apply Q.le_min_l].
    apply Q.min_glb; [lra|]. apply Qle_shift_div_l; lra.
Qed.

Lemma attack_at_least_half_witness :
  wf Sample.ap /\ nonneg Sample.ap
  /\ exists self' out,
       BeatDetector.detect_beat (BeatDetector.mk 3 0) 5 Sample.ap = Some (self', out)
       /\ 1 # 2 <= out <= 1.
Proof.
  assert (Hwf : wf Sample.ap) by solve_wf.
  assert (Hnn : nonneg Sample.ap) by (unfold nonneg; simpl; solve_entries).
  split; [exact Hwf|]. split; [exact Hnn|].
  apply (attack_at_least_half Sample.ap (BeatDetector.mk 3 0) 5 Hwf Hnn);
    [lia | by vm_compute].
Defined.

(** ** Palettes *)

Ltac colored_bands :=
  repeat (apply Forall_cons; split); try (by apply Forall_nil);
  (split; [split; q_literal | do 2 eexists; repeat split; q_literal]).

(** X8: for every palette name, known or not, [_setup_bands] returns the
    eight bands with their names and frequency ranges untouched, every hue
    offset in [0, 360) and saturation and brightness always present, in
    (0, 1]: the defaults of [band.get('saturation', ...)] are never used
    after construction. *)
Theorem setup_bands_total (color_palette : string) :
  exists bands,
    Visualizer._setup_bands color_palette = Some bands
    /\ map Band.name bands = map Band.name Config.FREQUENCY_BANDS
    /\ map Band.min bands = map Band.min Config.FREQUENCY_BANDS
    /\ map Band.max bands = map Band.max Config.FREQUENCY_BANDS
    /\ Forall band_colored bands.
Proof.
  unfold Visualizer._setup_bands.
  destruct (Config.COLOR_PALETTES !! color_palette) as [palette|] eqn:E.
  - apply elem_of_list_to_map_2 in E.
    repeat (apply elem_of_cons in E as [E|E];
            [injection E as _ ->; eexists; split; [vm_compute; reflexivity|];
             do 3 (split; [reflexivity|]); colored_bands|]).
    by apply elem_of_nil in E.
  - eexists. split; [reflexivity|]. do 3 (split; [reflexivity|]). colored_bands.
Qed.

(** ** Trail decay *)

Lemma fade_trail_channel_le (c : Z) :
  is_uint8 c ->
  (0 <= Visualizer.fade_trail_channel c <= c)%Z
  /\ ((0 < c)%Z -> (Visualizer.fade_trail_channel c < c)%Z).
Proof.
  unfold is_uint8. intros Hc.
  unfold Visualizer.fade_trail_channel, Config.TRAIL_FADE_FACTOR.
  assert (Hq0 : 0 <= inject_Z c) by inj_order.
  assert (Hq1 : inject_Z c <= inject_Z 255) by inj_order.
  change (inject_Z 255) with 255 in Hq1.
  rewrite astype_uint8_small by lra. split.
  - apply int_range; try lra. change (inject_Z 0) with 0. lra.
  - intros Hpos. apply int_lt; [lra|].
    assert (1 <= inject_Z c) by inj_order. lra.
Qed.

Lemma fade_trail_channel_26 (c : Z) :
  is_uint8 c -> Nat.iter 26 Visualizer.fade_trail_channel c = 0%Z.
Proof.
  unfold is_uint8. intros Hc.
  assert (Hall : forallb (fun n => (Nat.iter 26 Visualizer.fade_trail_channel
                                      (Z.of_nat n) =? 0)%Z)
                   (seq 0 256) = true) by (vm_compute; reflexivity).
  rewrite forallb_forall in Hall.
  specialize (Hall (Z.to_nat c)). rewrite Z2Nat.id in Hall by lia.
  apply Z.eqb_eq, Hall. apply in_seq. lia.
Qed.

Lemma decay_iter n im :
  Nat.iter n decay_step im
  = Visualizer.mk_image (Visualizer.width im) (Visualizer.height im)
      (map (Visualizer.map_pixel (Nat.iter n Visualizer.fade_trail_channel))
           (Visualizer.pixels im)).
Proof.
  induction n as [|n IH].
  - simpl. destruct im as [w h px]. simpl. f_equal.
    rewrite <- (map_id px) at 1. apply map_ext. by intros [[r g] b].
  - rewrite Nat.iter_succ, IH. unfold decay_step, Visualizer.fade_trail. simpl.
    f_equal. rewrite map_map. apply map_ext. by intros [[r g] b].
Qed.

(** X9: fading the trail buffer of 8-bit pixels never brightens a channel
    and strictly darkens every pixel that is not black; faded 26 times
    in a row, with nothing drawn in between, the whole buffer is black. *)
Theorem trail_fades_out (im : Visualizer.image) :
  Forall valid_pixel (Visualizer.pixels im) ->
  (forall i r g b,
      Visualizer.pixels im !! i = Some (r, g, b) ->
      exists r' g' b',
        Visualizer.pixels (decay_step im) !! i = Some (r', g', b')
        /\ (0 <= r' <= r)%Z /\ (0 <= g' <= g)%Z /\ (0 <= b' <= b)%Z
        /\ ((0 < r + g + b)%Z -> (r' + g' + b' < r + g + b)%Z))
  /\ Nat.iter 26 decay_step im
     = Visualizer.mk_image (Visualizer.width im) (Visualizer.height im)
         (replicate (length (Visualizer.pixels im)) (0, 0, 0)%Z).
Proof.
  intros Hvalid. split.
  - intros i r g b Hi.
    pose proof (proj1 (Forall_lookup _ _) Hvalid i _ Hi) as (Hr & Hg & Hb).
    unfold decay_step, Visualizer.fade_trail. simpl.
    do 3 eexists.
    split; [exact (list_lookup_fmap_Some_2 _ _ _ _ Hi)|].
    destruct (fade_trail_channel_le r Hr) as [Hr1 Hr2].
    destruct (fade_trail_channel_le g Hg) as [Hg1 Hg2].
    destruct (fade_trail_channel_le b Hb) as [Hb1 Hb2].
    do 3 (split; [done|]). unfold is_uint8 in *. intros Hpos.
    assert ((0 < r)%Z \/ (0 < g)%Z \/ (0 < b)%Z) as [H|[H|H]] by lia.
    + specialize (Hr2 H). lia.
    + specialize (Hg2 H). lia.
    + specialize (Hb2 H). lia.
  - rewrite decay_iter. f_equal.
    induction Hvalid as [|[[r g] b] px (Hr & Hg & Hb) _ IH]; [done|].
    cbn [map length replicate]. rewrite IH. f_equal.
    unfold Visualizer.map_pixel. by rewrite !fade_trail_channel_26.
Qed.

Lemma trail_fades_out_witness :
  Forall valid_pixel (Visualizer.pixels Sample.wave)
  /\ Nat.iter 26 decay_step Sample.wave
     = Visualizer.mk_image 2 2 (replicate 4 Sample.black).
Proof.
  assert (Hv : Forall valid_pixel (Visualizer.pixels Sample.wave))
    by (repeat constructor; lia).
  split; [exact Hv|]. exact (proj2 (trail_fades_out Sample.wave Hv)).
Defined.

(** A full-intensity channel needs all 26 frames. *)
Example trail_decay_of_white :
  Nat.iter 25 Visualizer.fade_trail_channel 255%Z = 1%Z
  /\ Nat.iter 26 Visualizer.fade_trail_channel 255%Z = 0%Z.
Proof. split; vm_compute; reflexivity. Qed.

(** ** Final fade *)

Lemma fade_factor_spec fps total_frames frame_idx :
  (frame_idx < total_frames)%Z ->
  let fade_frames := Py.int (Config.FADE_DURATION_SECONDS * inject_Z fps) in
  ((fade_frames < total_frames - frame_idx)%Z ->
     Visualizer.fade_factor fps total_frames frame_idx = Some None)
  /\ ((total_frames - frame_idx <= fade_frames)%Z ->
     exists k, Visualizer.fade_factor fps total_frames frame_idx = Some (Some k)
       /\ k == inject_Z (total_frames - frame_idx) / inject_Z fade_frames
       /\ 0 < k <= 1).
Proof.
  intros Hidx fade_frames. unfold Visualizer.fade_factor. fold fade_frames.
  split; intros H.
  - by destruct (Z.leb_spec (total_frames - frame_idx) fade_frames); [lia|].
  - destruct (Z.leb_spec (total_frames - frame_idx) fade_frames); [|lia].
    destruct (Z.eqb_spec fade_frames 0); [lia|].
    eexists. split; [reflexivity|].
    assert (Hff : 0 < inject_Z fade_frames) by inj_order.
    assert (Hfe : 0 < inject_Z (total_frames - frame_idx)) by inj_order.
    assert (Hle : inject_Z (total_frames - frame_idx) <= inject_Z fade_frames)
      by inj_order.
    assert (Hk : 1 - (1.0 - inject_Z (total_frames - frame_idx) / inject_Z fade_frames)
                 == inject_Z (total_frames - frame_idx) / inject_Z fade_frames).
    { field. lra. }
    split; [exact Hk|]. rewrite Hk. split.
    + apply Qlt_shift_div_l; lra.
    + apply Qle_shift_div_r; lra.
Qed.

(** X10: for every frame index below the frame count the final fade never
    divides by zero (whatever the frame rate), keeps the image dimensions,
    never brightens a channel of an 8-bit image, and leaves the image
    untouched while more than [int(2.0 * fps)] frames remain. *)
Theorem fade_to_black_darkens fps total_frames frame_idx (img : Visualizer.image) :
  (frame_idx < total_frames)%Z ->
  Forall valid_pixel (Visualizer.pixels img) ->
  exists out,
    Visualizer.fade_to_black fps total_frames frame_idx img = Some out
    /\ Visualizer.width out = Visualizer.width img
    /\ Visualizer.height out = Visualizer.height img
    /\ length (Visualizer.pixels out) = length (Visualizer.pixels img)
    /\ (forall i r g b,
          Visualizer.pixels img !! i = Some (r, g, b) ->
          exists r' g' b',
            Visualizer.pixels out !! i = Some (r', g', b')
            /\ (0 <= r' <= r)%Z /\ (0 <= g' <= g)%Z /\ (0 <= b' <= b)%Z)
    /\ ((Py.int (Config.FADE_DURATION_SECONDS * inject_Z fps)
         < total_frames - frame_idx)%Z -> out = img).
Proof.
  intros Hidx Hvalid. unfold Visualizer.fade_to_black.
  destruct (fade_factor_spec fps total_frames frame_idx Hidx) as [Hfar Hnear].
  destruct (Z.lt_ge_cases (Py.int (Config.FADE_DURATION_SECONDS * inject_Z fps))
              (total_frames - frame_idx)) as [H|H].
  - rewrite (Hfar H). simpl. exists img. do 4 (split; [done|]). split; [|done].
    intros i r g b Hi.
    pose proof (proj1 (Forall_lookup _ _) Hvalid i _ Hi) as (Hr & Hg & Hb).
    unfold is_uint8 in *. exists r, g, b. split; [exact Hi|]. lia.
  - destruct (Hnear H) as (k & -> & _ & Hk0 & Hk1). simpl.
    eexists. split; [reflexivity|]. simpl. do 2 (split; [done|]).
    split; [by rewrite length_map|]. split; [|lia].
    intros i r g b Hi.
    pose proof (proj1 (Forall_lookup _ _) Hvalid i _ Hi) as (Hr & Hg & Hb).
    do 3 eexists.
    split; [exact (list_lookup_fmap_Some_2 _ _ _ _ Hi)|].
    assert (Hch : forall c, is_uint8 c ->
              (0 <= Np.astype_uint8 (inject_Z c * k) <= c)%Z).
    { intros c Hc. unfold is_uint8 in Hc.
      assert (0 <= inject_Z c) by inj_order.
      assert (inject_Z c <= inject_Z 255) by inj_order.
      change (inject_Z 255) with 255 in *.
      rewrite astype_uint8_small by nra.
      apply int_range; [nra| change (inject_Z 0) with 0; nra | nra]. }
    repeat split; by apply Hch.
Qed.

Lemma fade_to_black_darkens_witness :
  Forall valid_pixel (Visualizer.pixels Sample.wave)
  /\ exists out,
       Visualizer.fade_to_black 30 100 99 Sample.wave = Some out
       /\ length (Visualizer.pixels out) = 4%nat.
Proof.
  assert (Hv : Forall valid_pixel (Visualizer.pixels Sample.wave))
    by (repeat constructor; lia).
  split; [exact Hv|].
  destruct (fade_to_black_darkens 30 100 99 Sample.wave ltac:(lia) Hv)
    as (out & Hout & _ & _ & Hlen & _).
  exists out. split; [exact Hout | exact Hlen].
Defined.

(** At 30 fps the last frame keeps 1/60 of the brightness: 255 becomes 4. *)
Example fade_of_last_frame :
  Visualizer.fade_to_black 30 100 99 Sample.wave
  = Some (Visualizer.mk_image 2 2
            [Sample.black; (4, 0, 0)%Z; Sample.black; Sample.black]).
Proof. vm_compute. reflexivity. Qed.

(** X11: inside the fade window the factor applied to the pixels is
    [frames_from_end / fade_frames]: it lies in (0, 1], is never zero (the
    last frame is not black), and strictly decreases as the frame index
    grows. *)
Theorem fade_amount_grows fps total_frames i j :
  (i <= j < total_frames)%Z ->
  (total_frames - i <= Py.int (Config.FADE_DURATION_SECONDS * inject_Z fps))%Z ->
  exists ki kj,
    Visualizer.fade_factor fps total_frames i = Some (Some ki)
    /\ Visualizer.fade_factor fps total_frames j = Some (Some kj)
    /\ 0 < kj /\ kj <= ki /\ ki <= 1
    /\ ((i < j)%Z -> kj < ki).
Proof.
  intros Hij Hwin.
  destruct (fade_factor_spec fps total_frames i ltac:(lia)) as [_ Hnear_i].
  destruct (fade_factor_spec fps total_frames j ltac:(lia)) as [_ Hnear_j].
  set (ff := Py.int (Config.FADE_DURATION_SECONDS * inject_Z fps)) in *.
  destruct (Hnear_i Hwin) as (ki & Ei & Hki & Hi0 & Hi1).
  destruct (Hnear_j ltac:(lia)) as (kj & Ej & Hkj & Hj0 & Hj1).
  exists ki, kj. do 2 (split; [done|]). split; [done|].
  assert (Hff : 0 < inject_Z ff) by inj_order.
  assert (Hinv : 0 < / inject_Z ff) by (by apply Qinv_lt_0_compat).
  assert (Hle : inject_Z (total_frames - j) <= inject_Z (total_frames - i))
    by inj_order.
  split; [|split; [done|]].
  - rewrite Hki, Hkj. unfold Qdiv. nra.
  - intros Hlt. rewrite Hki, Hkj. unfold Qdiv.
    assert (inject_Z (total_frames - j) < inject_Z (total_frames - i)) by inj_order.
    nra.
Qed.

Lemma fade_amount_grows_witness :
  exists ki kj,
    Visualizer.fade_factor 30 100 50 = Some (Some ki)
    /\ Visualizer.fade_factor 30 100 99 = Some (Some kj)
    /\ 0 < kj /\ kj < ki.
Proof.
  destruct (fade_amount_grows 30 100 50 99 ltac:(lia))
    as (ki & kj & Hi & Hj & H0 & _ & _ & Hlt).
  { vm_compute. discriminate. }
  exists ki, kj. split; [exact Hi|]. split; [exact Hj|].
  split; [exact H0|]. apply Hlt. lia.
Defined.

(** ** Frame count *)

(** X12: with a non-negative frame rate a preview never renders more frames
    than the full render, a positive preview length [p] caps the count at
    [p * fps], and a preview length of 0 is falsy: the full length is
    rendered although the visualizer is in preview mode. *)
Theorem preview_frame_count (preview_seconds : option Z) (duration : Q) (fps : Z) :
  (0 <= fps)%Z ->
  (Visualizer.total_frames preview_seconds duration fps
   <= Visualizer.total_frames None duration fps)%Z
  /\ (forall p, preview_seconds = Some p -> (0 < p)%Z ->
        (Visualizer.total_frames preview_seconds duration fps <= p * fps)%Z)
  /\ (preview_seconds = Some 0%Z ->
        Visualizer.is_preview preview_seconds = true
        /\ Visualizer.total_frames preview_seconds duration fps
           = Visualizer.total_frames None duration fps).
Proof.
  intros Hfps. assert (Hq : 0 <= inject_Z fps) by inj_order.
  split; [|split].
  - unfold Visualizer.total_frames. destruct preview_seconds as [p|]; [|simpl; lia].
    destruct (Z.eqb_spec p 0); simpl; [lia|].
    apply int_mono. unfold Py.min.
    destruct (Py.lt duration (inject_Z p)) eqn:E; [lra|].
    apply lt_false in E. nra.
  - intros p -> Hp. unfold Visualizer.total_frames.
    destruct (Z.eqb_spec p 0); [lia|]. simpl.
    rewrite <- (Qfloor_Z (p * fps)). rewrite <- int_nonneg.
    + apply int_mono. rewrite inject_Z_mult. unfold Py.min.
      destruct (Py.lt duration (inject_Z p)) eqn:E; [|lra].
      apply lt_true in E. nra.
    + rewrite inject_Z_mult. assert (0 <= inject_Z p) by inj_order. nra.
  - intros ->. split; reflexivity.
Qed.

Lemma preview_frame_count_witness :
  (0 <= 30)%Z
  /\ (Visualizer.total_frames (Some 5%Z) 12.5 30
      <= Visualizer.total_frames None 12.5 30)%Z.
Proof.
  split; [lia|]. exact (proj1 (preview_frame_count (Some 5%Z) 12.5 30 ltac:(lia))).
Defined.

(** A five second preview of a 12.5 second track at 30 fps. *)
Example preview_frames :
  Visualizer.total_frames (Some 5%Z) 12.5 30 = 150%Z
  /\ Visualizer.total_frames None 12.5 30 = 375%Z
  /\ Visualizer.total_frames (Some 20%Z) 12.5 30 = 375%Z.
Proof. repeat split; vm_compute; reflexivity. Qed.

(** ** Animation state *)

Lemma animate_app vs v self :
  Visualizer.animate (vs ++ [v]) self
  = Visualizer.update_animation v (Visualizer.animate vs self).
Proof. unfold Visualizer.animate. by rewrite foldl_app. Qed.

(** X13: after any number of frames the cover rotation is exactly minus
    twice the waveform rotation; with non-negative volume intensities the
    rotation has advanced by at least 0.001 per frame, and with intensities
    in [0, 1] by at most 0.016 per frame. *)
Theorem rotation_advances (vs : list Q) :
  let st := Visualizer.animate vs Visualizer.anim_init in
  Visualizer.cover_rotation st == - (2) * Visualizer.rotation st
  /\ (Forall (fun v => 0 <= v) vs ->
      inject_Z (Z.of_nat (length vs)) * 0.001 <= Visualizer.rotation st)
  /\ (Forall (fun v => 0 <= v <= 1) vs ->
      Visualizer.rotation st <= inject_Z (Z.of_nat (length vs)) * 0.016).
Proof.
  induction vs as [|v vs IH] using rev_ind.
  - cbn. split; [reflexivity|]. split; intros _; rewrite Qmult_0_l; apply Qle_refl.
  - rewrite animate_app. cbv zeta in IH. destruct IH as (IH1 & IH2 & IH3).
    set (st := Visualizer.animate vs Visualizer.anim_init) in *.
    rewrite length_app. simpl length. rewrite Nat2Z.inj_add, inject_Z_plus.
    change (inject_Z (Z.of_nat 1)) with 1.
    unfold Visualizer.update_animation, Config.BASE_ROTATION_SPEED,
      Config.VOLUME_ROTATION_MULTIPLIER. simpl.
    split; [lra|]. split.
    + intros Hall. apply Forall_app in Hall as [Hvs Hv].
      apply Forall_cons in Hv as [Hv _]. specialize (IH2 Hvs). lra.
    + intros Hall. apply Forall_app in Hall as [Hvs Hv].
      apply Forall_cons in Hv as [Hv _]. specialize (IH3 Hvs). lra.
Qed.

Lemma rotation_advances_witness :
  Forall (fun v => 0 <= v <= 1) [0.5; 1; 0]
  /\ Visualizer.rotation (Visualizer.animate [0.5; 1; 0] Visualizer.anim_init)
     <= inject_Z (Z.of_nat 3) * 0.016.
Proof.
  assert (Hv : Forall (fun v => 0 <= v <= 1) [0.5; 1; 0]).
  { repeat (apply Forall_cons; split); try (by apply Forall_nil);
      split; q_literal. }
  split; [exact Hv|].
  exact (proj2 (proj2 (rotation_advances [0.5; 1; 0])) Hv).
Defined.

(** ** Text overlay *)

Lemma text_history_step text beat volume h :
  Py.truthy text = true ->
  (Effects.draw_text_overlay text beat volume h).1
  = drop (length (h ++ [volume]) - 60) (h ++ [volume])
  \/ (60 < length h)%nat.
Proof.
  intros Ht. destruct (Nat.lt_ge_cases 60 (length h)) as [Hl|Hl]; [by right|left].
  unfold Effects.draw_text_overlay. rewrite Ht. simpl.
  rewrite length_app. simpl length.
  destruct (Nat.ltb_spec 60 (length h + 1)) as [H|H].
  - replace (length h + 1 - 60)%nat with 1%nat by lia. done.
  - replace (length h + 1 - 60)%nat with 0%nat by lia. done.
Qed.

(** X14: when a text is drawn on every frame, starting from an empty
    history, the fade history holds exactly the volume intensities of the
    last 60 frames (all of them while fewer were rendered), so it never
    exceeds 60 entries; with an empty or missing text the history is never
    touched. *)
Theorem text_history_window text (frames : list (Q * Q)) :
  (Py.truthy text = true ->
     text_history text frames []
     = drop (length frames - 60) (map snd frames)
     /\ (length (text_history text frames []) <= 60)%nat)
  /\ (Py.truthy text = false ->
      forall h, text_history text frames h = h).
Proof.
  split.
  - intros Ht.
    assert (H : text_history text frames []
                = drop (length frames - 60) (map snd frames)).
    { induction frames as [|[beat volume] frames IH] using rev_ind; [done|].
      unfold text_history in *. rewrite foldl_app. simpl. rewrite IH.
      rewrite map_app, length_app. simpl.
      destruct (text_history_step text beat volume
                  (drop (length frames - 60) (map snd frames)) Ht) as [->|Hbad].
      - rewrite length_app, length_drop, length_map. simpl length.
        rewrite <- drop_app_le by (rewrite length_map; lia).
        rewrite drop_drop. f_equal. lia.
      - rewrite length_drop, length_map in Hbad. lia. }
    split; [exact H|]. rewrite H, length_drop, length_map. lia.
  - intros Ht h. unfold text_history.
    induction frames as [|[beat volume] frames IH] using rev_ind; [done|].
    rewrite foldl_app. simpl. rewrite IH.
    unfold Effects.draw_text_overlay. by rewrite Ht.
Qed.

Lemma text_history_window_witness :
  Py.truthy (Some "Title"%string) = true
  /\ (length (text_history (Some "Title"%string)
                (replicate 70 (0.5, 0.25)%Q) []) <= 60)%nat.
Proof.
  split; [reflexivity|].
  exact (proj2 (proj1 (text_history_window (Some "Title"%string)
                         (replicate 70 (0.5, 0.25))) eq_refl)).
Defined.

(** X15: for a non-empty text, intensities in [0, 1] and a history of
    values in [0, 1], the overlay is drawn with a shadow alpha in
    [54, 180] and a text alpha in [76, 255]: the text is never fully
    transparent and both are valid 8-bit alphas. *)
Theorem text_alpha_range text beat volume history :
  Py.truthy text = true ->
  0 <= beat <= 1 -> 0 <= volume <= 1 ->
  Forall (fun v => 0 <= v <= 1) history ->
  exists history' shadow_alpha text_alpha,
    Effects.draw_text_overlay text beat volume history
    = (history', Some (shadow_alpha, text_alpha))
    /\ (54 <= shadow_alpha <= 180)%Z
    /\ (76 <= text_alpha <= 255)%Z.
Proof.
  intros Ht Hb Hv Hh. unfold Effects.draw_text_overlay. rewrite Ht. simpl.
  do 3 eexists. split; [reflexivity|].
  set (h := if (60 <? _)%nat then _ else _).
  assert (Hh' : Forall (fun v => 0 <= v <= 1) h).
  { unfold h. destruct (60 <? _)%nat.
    - apply Forall_drop. apply Forall_app. split; [done|]. by constructor.
    - apply Forall_app. split; [done|]. by constructor. }
  set (avg := if (0 <? length h)%nat then Np.mean h else 0).
  assert (Havg : 0 <= avg <= 1).
  { unfold avg. destruct (0 <? length h)%nat eqn:E; [|lra].
    apply mean_range; [|done]. intros E'. rewrite E' in E. done. }
  set (alpha := Py.min 1.0 (0.3 + avg * 0.7 + beat * 0.2)).
  assert (Halpha : 0.3 <= alpha <= 1).
  { unfold alpha, Py.min. destruct (Py.lt _ 1.0) eqn:E.
    - apply lt_true in E. lra.
    - lra. }
  split; apply int_range; try (change (inject_Z ?z) with (z # 1)); lra.
Qed.

Lemma text_alpha_range_witness :
  exists history' shadow_alpha text_alpha,
    Effects.draw_text_overlay (Some "Title"%string) 1 0.5 [0.5; 0.5]
    = (history', Some (shadow_alpha, text_alpha))
    /\ (54 <= shadow_alpha <= 180)%Z
    /\ (76 <= text_alpha <= 255)%Z.
Proof.
  apply (text_alpha_range (Some "Title"%string) 1 0.5 [0.5; 0.5]).
  - reflexivity.
  - split; q_literal.
  - split; q_literal.
  - repeat (apply Forall_cons; split); try (by apply Forall_nil);
      split; q_literal.
Defined.

(** ** Star brightness *)

(** X16: for a star depth in [0, 2], as the star field keeps it, the four
    alphas of a star, from the widest glow circle to the core, are
    non-decreasing; the widest circle is fully transparent, the others are
    visible, and the core alpha lies in [150, 250]. *)
Theorem star_alphas_valid (z : Q) :
  0 <= z <= 2 ->
  exists a2 a1 core,
    Effects.star_alphas z = [0; a2; a1; core]%Z
    /\ (0 < a2 <= a1)%Z /\ (a1 <= core)%Z /\ (150 <= core <= 250)%Z.
Proof.
  intros Hz. unfold Effects.star_alphas. simpl.
  set (b := Effects.star_brightness z).
  assert (Hb : (150 <= b <= 250)%Z).
  { unfold b, Effects.star_brightness.
    apply int_range; unfold inject_Z; lra. }
  assert (Hq : 150 <= inject_Z b <= 250).
  { split; [change 150 with (inject_Z 150) | change 250 with (inject_Z 250)];
      rewrite <- Zle_Qle; lia. }
  do 3 eexists. split.
  - f_equal. unfold Effects.star_glow_alpha.
    apply (int_comp _ 0). change (inject_Z 3) with 3. field.
  - unfold Effects.star_glow_alpha.
    change (inject_Z 2) with 2. change (inject_Z 1) with 1.
    set (q := inject_Z b) in *.
    assert (E2 : 1 - 2 / 3 == 1 # 3) by reflexivity.
    assert (E1 : 1 - 1 / 3 == 2 # 3) by reflexivity.
    assert (H2 : (15 <= Py.int (q * 0.3 * (1 - 2 / 3)) <= 25)%Z).
    { apply int_range; rewrite E2; unfold inject_Z; lra. }
    assert (H1 : (30 <= Py.int (q * 0.3 * (1 - 1 / 3)) <= 50)%Z).
    { apply int_range; rewrite E1; unfold inject_Z; lra. }
    lia.
Qed.

Lemma star_alphas_valid_witness :
  exists a2 a1 core,
    Effects.star_alphas 1 = [0; a2; a1; core]%Z
    /\ (0 < a2 <= a1)%Z /\ (a1 <= core)%Z /\ (150 <= core <= 250)%Z.
Proof. apply (star_alphas_valid 1). split; q_literal. Defined.

(** ** Rings *)

(** X17: for a non-negative base size and non-negative intensities the
    ring radii are non-negative and nested: a ring with a larger index is
    never smaller. *)
Theorem rings_nested (base_size r r' : Z) (volume_intensity beat_intensity : Q) :
  (0 <= base_size)%Z -> (0 <= r <= r')%Z ->
  0 <= volume_intensity -> 0 <= beat_intensity ->
  (0 <= Effects.ring_size base_size r volume_intensity beat_intensity
     <= Effects.ring_size base_size r' volume_intensity beat_intensity)%Z.
Proof.
  intros Hb Hr Hv Hbeat. unfold Effects.ring_size. cbv zeta.
  assert (Hbq : 0 <= inject_Z base_size) by inj_order.
  assert (Hrq : 0 <= inject_Z r) by inj_order.
  assert (Hrr : inject_Z r <= inject_Z r') by inj_order.
  set (b := inject_Z base_size) in *. set (x := inject_Z r) in *.
  set (y := inject_Z r') in *.
  assert (H0 : 0 <= b * (0.4 + x * 0.2)) by nra.
  assert (H1 : b * (0.4 + x * 0.2) <= b * (0.4 + y * 0.2)) by nra.
  split.
  - change 0%Z with (Py.int 0). apply int_mono. nra.
  - apply int_mono. nra.
Qed.

Lemma rings_nested_witness :
  (0 <= Effects.ring_size 200 0 0.5 1 <= Effects.ring_size 200 2 0.5 1)%Z.
Proof. apply rings_nested; [lia | lia | q_literal | q_literal]. Defined.

(** The three rings of a 200 pixel cover at half volume on a full beat. *)
Example ring_sizes :
  map (fun r => Effects.ring_size 200 r 0.5 1) [0; 1; 2]%Z = [180; 230; 280]%Z.
Proof. vm_compute. reflexivity. Qed.

(** X18: for intensities in [0, 1] the ring outline is 3 to 13 pixels
    wide, every glow pass [glow] in 1..8 has an alpha in [0, 223], and the
    outermost pass (8) is always fully transparent. *)
Theorem ring_stroke_valid (volume_intensity beat_intensity : Q) (glow : Z) :
  0 <= volume_intensity <= 1 -> 0 <= beat_intensity <= 1 ->
  (1 <= glow <= 8)%Z ->
  (3 <= Effects.line_width volume_intensity beat_intensity <= 13)%Z
  /\ (0 <= Effects.ring_glow_alpha beat_intensity glow <= 223)%Z
  /\ Effects.ring_glow_alpha beat_intensity 8 = 0%Z.
Proof.
  intros Hv Hb Hg. split; [|split].
  - unfold Effects.line_width. apply int_range; unfold inject_Z; lra.
  - unfold Effects.ring_glow_alpha.
    assert (Hq1 : 1 <= inject_Z glow) by inj_order.
    assert (Hq8 : inject_Z glow <= inject_Z 8) by inj_order.
    change (inject_Z 8) with 8 in Hq8.
    set (q := inject_Z glow) in *.
    assert (E : 1 - q / 8 == (8 - q) * (1 # 8)) by (field).
    assert (H0 : 0 <= (200 + beat_intensity * 55) * (1 - q / 8)) by (rewrite E; nra).
    assert (H1 : (200 + beat_intensity * 55) * (1 - q / 8) < inject_Z 224).
    { rewrite E. change (inject_Z 224) with 224. nra. }
    pose proof (int_lt _ 224 H0 H1). pose proof (int_mono 0 _ H0) as Hlo.
    change (Py.int 0) with 0%Z in Hlo. lia.
  - unfold Effects.ring_glow_alpha. apply (int_comp _ 0).
    change (inject_Z 8) with 8. field.
Qed.

Lemma ring_stroke_valid_witness :
  (3 <= Effects.line_width 0.5 1 <= 13)%Z
  /\ (0 <= Effects.ring_glow_alpha 1 1 <= 223)%Z
  /\ Effects.ring_glow_alpha 1 8 = 0%Z.
Proof.
  apply ring_stroke_valid; [split; q_literal | split; q_literal | lia].
Defined.

(** The brightest glow pass reaches 223. *)
Example ring_glow_brightest : Effects.ring_glow_alpha 1 1 = 223%Z.
Proof. vm_compute. reflexivity. Qed.

(** ** Waveform layout *)

Lemma sensitivity_range (band_idx n : nat) :
  (band_idx < n)%nat -> (2 <= n)%nat ->
  exists s, Effects.sensitivity band_idx n = Some s
    /\ 1 <= s <= 3
    /\ (band_idx = 0%nat -> s == 1)
    /\ (band_idx = (n - 1)%nat -> s == 3).
Proof.
  intros Hi Hn. unfold Effects.sensitivity.
  destruct (Z.eqb_spec (Z.of_nat n - 1) 0); [lia|].
  eexists. split; [reflexivity|].
  assert (Hd : 0 < inject_Z (Z.of_nat n - 1)) by inj_order.
  assert (Hi0 : 0 <= inject_Z (Z.of_nat band_idx)) by inj_order.
  assert (Hi1 : inject_Z (Z.of_nat band_idx) <= inject_Z (Z.of_nat n - 1)) by inj_order.
  set (d := inject_Z (Z.of_nat n - 1)) in *.
  set (i := inject_Z (Z.of_nat band_idx)) in *.
  assert (Hq0 : 0 <= i / d) by (apply Qle_shift_div_l; lra).
  assert (Hq1 : i / d <= 1) by (apply Qle_shift_div_r; lra).
  split; [lra|]. split.
  - intros E. unfold i. rewrite E. change (inject_Z (Z.of_nat 0)) with 0.
    unfold Qdiv. rewrite Qmult_0_l. reflexivity.
  - intros E. assert (i == d) as ->.
    { unfold i, d. rewrite E.
      replace (Z.of_nat (n - 1)) with (Z.of_nat n - 1)%Z by lia.
      reflexivity. }
    field. lra.
Qed.

(** X20: the layout of the waveforms cannot be computed when there is no
    band or exactly one band: [self.height // len(bands)], respectively
    [band_idx / (len(bands) - 1)], divides by zero.  With two or more bands
    and a non-negative height every band gets a centre line inside the
    canvas, a base hue in [0, 360) and a sensitivity in [1, 3], which is 1
    for the first band and 3 for the last. *)
Theorem waveform_bands_layout (height : Z) (bands : list Band.t) (hue_offset : Q) :
  ((length bands <= 1)%nat -> Effects.waveform_bands height bands hue_offset = None)
  /\ ((2 <= length bands)%nat -> (0 <= height)%Z ->
      exists rows,
        Effects.waveform_bands height bands hue_offset = Some rows
        /\ length rows = length bands
        /\ forall i cy hue s, rows !! i = Some (cy, hue, s) ->
             0 <= cy <= inject_Z height
             /\ 0 <= hue < 360
             /\ 1 <= s <= 3
             /\ (i = 0%nat -> s == 1)
             /\ (i = (length bands - 1)%nat -> s == 3)).
Proof.
  split.
  - intros Hn. unfold Effects.waveform_bands, Effects.band_height.
    destruct bands as [|b0 [|b1 bands]]; simpl in *; [done|done|lia].
  - intros Hn Hh. unfold Effects.waveform_bands, Effects.band_height.
    destruct (Nat.eqb_spec (length bands) 0) as [E0|E0]; [lia|]. simpl. clear E0.
    set (n := length bands) in *. set (bh := (height / Z.of_nat n)%Z).
    assert (Hbh : (0 <= bh)%Z) by (apply Z.div_pos; lia).
    assert (Hbhn : (Z.of_nat n * bh <= height)%Z) by (apply Z.mul_div_le; lia).
    set (f := fun '(band_idx, band) =>
                Effects.sensitivity band_idx n
                ≫= (fun s => Some (Effects.center_y band_idx bh,
                                   Py.fmod (hue_offset + Band.hue_offset band) 360, s))).
    set (g := fun '(band_idx, band) =>
                (Effects.center_y band_idx bh,
                 Py.fmod (hue_offset + Band.hue_offset band) 360,
                 default 0 (Effects.sensitivity band_idx n))).
    assert (Hrows : mapM f (zip (seq 0 n) bands) = Some (map g (zip (seq 0 n) bands))).
    { apply mapM_pointwise. apply Forall_forall. intros [i band] Hin.
      apply elem_of_zip_l in Hin. apply elem_of_seq in Hin.
      destruct (sensitivity_range i n) as (s & Hs & _); [lia|done|].
      unfold f, g. rewrite Hs. done. }
    exists (map g (zip (seq 0 n) bands)). split; [exact Hrows|].
    split. { rewrite length_map, length_zip, length_seq. lia. }
    intros i cy hue s Hi.
    change (map g ?l) with (g <$> l) in Hi. rewrite list_lookup_fmap in Hi.
    destruct (zip (seq 0 n) bands !! i) as [[j band]|] eqn:Hz; [|done].
    simpl in Hi. injection Hi as <- <- <-.
    apply lookup_zip_with_Some in Hz as (j' & band' & [= <- <-] & Hj & Hband).
    apply lookup_seq in Hj as [-> Hin]. simpl.
    destruct (sensitivity_range i n) as (s & Hs & Hs1 & Hs0 & Hsn); [lia|done|].
    rewrite Hs. simpl. split; [|split; [apply fmod_range; lra|done]].
    unfold Effects.center_y.
    assert (Hi0 : 0 <= inject_Z (Z.of_nat i)) by inj_order.
    assert (Hb0 : 0 <= inject_Z bh) by inj_order.
    assert (Hle : (inject_Z (Z.of_nat i) + 1) * inject_Z bh <= inject_Z height).
    { change 1 with (inject_Z 1). rewrite <- inject_Z_plus, <- inject_Z_mult.
      rewrite <- Zle_Qle. nia. }
    split; nra.
Qed.

Lemma waveform_bands_layout_witness :
  (2 <= length Config.FREQUENCY_BANDS)%nat /\ (0 <= 720)%Z
  /\ exists rows,
       Effects.waveform_bands 720 Config.FREQUENCY_BANDS 10 = Some rows
       /\ length rows = length Config.FREQUENCY_BANDS.
Proof.
  assert (Hn : (2 <= length Config.FREQUENCY_BANDS)%nat) by (simpl; lia).
  assert (Hh : (0 <= 720)%Z) by lia.
  split; [exact Hn|]. split; [exact Hh|].
  destruct (proj2 (waveform_bands_layout 720 Config.FREQUENCY_BANDS 10) Hn Hh)
    as (rows & Hrows & Hlen & _).
  exists rows. split; [exact Hrows | exact Hlen].
Defined.

(** A single band cannot be drawn. *)
Example waveform_single_band :
  Effects.waveform_bands 720 (take 1 Config.FREQUENCY_BANDS) 10 = None.
Proof. reflexivity. Qed.

(** X21: on a canvas of positive width the x coordinates of the samples
    of a waveform start at 0, never decrease along the waveform and stay
    strictly left of the right edge. *)
Theorem point_x_on_canvas (i j len : nat) (width : Z) :
  (i <= j < len)%nat -> (0 < width)%Z ->
  (0 <= Effects.point_x i len width <= Effects.point_x j len width)%Z
  /\ (Effects.point_x j len width < width)%Z
  /\ Effects.point_x 0 len width = 0%Z.
Proof.
  intros Hij Hw. unfold Effects.point_x.
  assert (Hl : 0 < inject_Z (Z.of_nat len)) by inj_order.
  assert (Hi0 : 0 <= inject_Z (Z.of_nat i)) by inj_order.
  assert (Hiq : inject_Z (Z.of_nat i) <= inject_Z (Z.of_nat j)) by inj_order.
  assert (Hjl : inject_Z (Z.of_nat j) < inject_Z (Z.of_nat len)) by inj_order.
  assert (Hwq : 0 < inject_Z width) by inj_order.
  set (l := inject_Z (Z.of_nat len)) in *. set (a := inject_Z (Z.of_nat i)) in *.
  set (b := inject_Z (Z.of_nat j)) in *. set (w := inject_Z width) in *.
  assert (Hinv : 0 < / l) by (by apply Qinv_lt_0_compat).
  assert (Hunit : l * / l == 1) by (field; lra).
  unfold Qdiv.
  assert (Ha : 0 <= a * / l) by nra.
  assert (Hab : a * / l <= b * / l) by nra.
  assert (Hb1 : b * / l < 1) by nra.
  split; [split|split].
  - change 0%Z with (Py.int 0). apply int_mono. nra.
  - apply int_mono. nra.
  - apply int_lt; [nra|]. fold w. nra.
  - apply (int_comp _ 0). change (inject_Z (Z.of_nat 0)) with 0. ring.
Qed.

Lemma point_x_on_canvas_witness :
  (0 <= Effects.point_x 10 200 1280 <= Effects.point_x 199 200 1280)%Z
  /\ (Effects.point_x 199 200 1280 < 1280)%Z
  /\ Effects.point_x 0 200 1280 = 0%Z.
Proof. apply point_x_on_canvas; lia. Defined.

(** ** Colours *)

(** X24: with saturation 0 the colour is a grey whatever the hue: the
    three channels are equal, each the boosted and clipped brightness. *)
Theorem hsv_to_rgb_grey (h v : Q) :
  exists c, Effects.hsv_to_rgb h 0 v = (c, c, c)
            /\ c = Py.int (Py.min 255 (v * 255 * 1.2)).
Proof.
  exists (Py.int (Py.min 255 (v * 255 * 1.2))). split; [|done].
  unfold Effects.hsv_to_rgb. cbv zeta.
  assert (E : forall t, t == v -> Py.int (Py.min 255 (t * 255 * 1.2))
                               = Py.int (Py.min 255 (v * 255 * 1.2))).
  { intros t Ht. by apply channel_comp. }
  repeat (destruct (Py.lt _ _);
          [apply (f_equal2 pair); [apply (f_equal2 pair)|]; apply E; ring|]).
  apply (f_equal2 pair); [apply (f_equal2 pair)|]; apply E; ring.
Qed.

(** ** Compositing *)

Lemma zip_with_pointwise {A} (f : A -> A -> A) (l k : list A) :
  length l = length k ->
  (forall i x y, l !! i = Some x -> k !! i = Some y -> f x y = x) ->
  zip_with f l k = l.
Proof.
  revert k. induction l as [|x l IH]; intros [|y k] Hlen H; simplify_eq/=; [done|].
  f_equal.
  - by apply (H 0%nat).
  - apply IH; [lia|]. intros i. apply (H (S i)).
Qed.

Lemma composite_eq (img wave : Visualizer.image) :
  Visualizer.width img = Visualizer.width wave ->
  Visualizer.height img = Visualizer.height wave ->
  length (Visualizer.pixels img) = length (Visualizer.pixels wave) ->
  Visualizer.composite img wave
  = Some (Visualizer.mk_image (Visualizer.width img) (Visualizer.height img)
            (zip_with (fun d s => if (0 <? Visualizer.channel_sum s)%Z then s else d)
               (Visualizer.pixels img) (Visualizer.pixels wave))).
Proof.
  intros Hw Hh Hlen. unfold Visualizer.composite.
  destruct (put_select (fun p => (0 <? Visualizer.channel_sum p)%Z)
              (Visualizer.pixels wave) (Visualizer.pixels img) Hlen)
    as (vals & -> & Hput).
  simpl. rewrite Hw, Hh, !Nat.eqb_refl. simpl. by rewrite Hput.
Qed.

(** X25: for images of equal shape, compositing an all-black waveform
    canvas leaves the image unchanged, and compositing the same canvas a
    second time changes nothing more. *)
Theorem composite_black_and_twice (img wave : Visualizer.image) :
  Visualizer.width img = Visualizer.width wave ->
  Visualizer.height img = Visualizer.height wave ->
  length (Visualizer.pixels img) = length (Visualizer.pixels wave) ->
  (Forall (fun p => Visualizer.channel_sum p = 0%Z) (Visualizer.pixels wave) ->
     Visualizer.composite img wave = Some img)
  /\ (forall out, Visualizer.composite img wave = Some out ->
        Visualizer.composite out wave = Some out).
Proof.
  intros Hw Hh Hlen. split.
  - intros Hblack. rewrite composite_eq by done.
    destruct img as [w h px]. simpl in *. do 2 f_equal.
    apply zip_with_pointwise; [done|].
    intros i x y _ Hy.
    apply (proj1 (Forall_lookup _ _) Hblack) in Hy. simpl in Hy. by rewrite Hy.
  - intros out Hout. rewrite composite_eq in Hout by done. injection Hout as <-.
    rewrite composite_eq; simpl; try done.
    + do 2 f_equal.
      apply list_eq. intros i. rewrite !lookup_zip_with.
      destruct (Visualizer.pixels img !! i) as [x|]; simpl; [|done].
      destruct (Visualizer.pixels wave !! i) as [y|]; simpl; [|done].
      by destruct (0 <? Visualizer.channel_sum y)%Z.
    + rewrite length_zip_with. lia.
Qed.

Lemma composite_black_and_twice_witness :
  exists out,
    Visualizer.composite Sample.img Sample.wave = Some out
    /\ Visualizer.composite out Sample.wave = Some out.
Proof.
  eexists. split; [reflexivity|].
  apply (proj2 (composite_black_and_twice Sample.img Sample.wave
                  eq_refl eq_refl eq_refl)).
  reflexivity.
Defined.

(** ** Ring squeeze and star field *)

Section StarField.
Local Open Scope R_scope.

Lemma Int_part_bounds (x : R) (lo hi : Z) :
  IZR lo <= x -> x <= IZR hi -> (lo <= Int_part x <= hi)%Z.
Proof.
  intros Hlo Hhi. destruct (base_Int_part x) as [H1 H2].
  split.
  - assert (IZR lo < IZR (Int_part x) + 1) by lra.
    rewrite <- plus_IZR in H. apply lt_IZR in H. lia.
  - assert (IZR (Int_part x) <= IZR hi) by lra. by apply le_IZR.
Qed.

Lemma Rint_bounds (x : R) (hi : Z) :
  0 <= x -> x <= IZR hi -> (0 <= Effects.Rint x <= hi)%Z.
Proof.
  intros H0 Hhi. unfold Effects.Rint. destruct (Rle_dec 0 x); [|lra].
  by apply Int_part_bounds.
Qed.

(** X19: for a non-negative ring radius, whatever the ring rotation mode
    and the rotation angle, both half-axes of the drawn ring lie between 0
    and the radius, and at least one of them is the radius itself: the
    squeeze never enlarges a ring and never turns it inside out. *)
Theorem ring_squeeze_within (ring_rotation : string) (ring_size : Z) (rotation : R) :
  (0 <= ring_size)%Z ->
  exists shape_width shape_height,
    Effects.ring_shape ring_rotation ring_size rotation = (shape_width, shape_height)
    /\ (0 <= shape_width <= ring_size)%Z
    /\ (0 <= shape_height <= ring_size)%Z
    /\ (shape_width = ring_size \/ shape_height = ring_size).
Proof.
  intros Hr. assert (Hq : 0 <= IZR ring_size) by (by apply IZR_le).
  pose proof (ring_distortion_range rotation) as [Hlo Hhi].
  assert (Hs : (0 <= Effects.Rint (IZR ring_size * Effects.ring_distortion rotation)
                <= ring_size)%Z).
  { apply Rint_bounds; nra. }
  unfold Effects.ring_shape.
  destruct (String.eqb ring_rotation "x"); [|destruct (String.eqb ring_rotation "y")];
    do 2 eexists; (split; [reflexivity|]); cbv zeta; repeat split; (lia || tauto).
Qed.

Lemma ring_squeeze_within_witness :
  exists shape_width shape_height,
    Effects.ring_shape "x" 180 1 = (shape_width, shape_height)
    /\ (0 <= shape_width <= 180)%Z
    /\ (0 <= shape_height <= 180)%Z
    /\ (shape_width = 180%Z \/ shape_height = 180%Z).
Proof. apply (ring_squeeze_within "x" 180 1). lia. Defined.

Lemma sqrt_scaled (d c s : R) :
  0 <= d -> sqrt (d * c * (d * c) + d * s * (d * s)) = d * sqrt (c * c + s * s).
Proof.
  intros Hd.
  replace (d * c * (d * c) + d * s * (d * s)) with ((d * d) * (c * c + s * s)) by ring.
  rewrite sqrt_mult_alt by nra. by rewrite sqrt_square.
Qed.

Lemma rotate_keeps_distance atan2 speed cx cy mode s :
  dist cx cy (Effects.rotate_star atan2 speed cx cy mode s) = dist cx cy s
  /\ Star.z (Effects.rotate_star atan2 speed cx cy mode s) = Star.z s
  /\ Star.size (Effects.rotate_star atan2 speed cx cy mode s) = Star.size s.
Proof.
  assert (Hrot : forall a,
    dist cx cy (Star.mk (cx + sqrt ((Star.x s - cx) ^ 2 + (Star.y s - cy) ^ 2) * cos a)
                        (cy + sqrt ((Star.x s - cx) ^ 2 + (Star.y s - cy) ^ 2) * sin a)
                        (Star.z s) (Star.size s)) = dist cx cy s).
  { intros a. unfold dist. cbn [Star.x Star.y].
    set (d := sqrt ((Star.x s - cx) ^ 2 + (Star.y s - cy) ^ 2)).
    assert (Hd : 0 <= d) by apply sqrt_pos.
    replace (cx + d * cos a - cx) with (d * cos a) by ring.
    replace (cy + d * sin a - cy) with (d * sin a) by ring.
    rewrite sqrt_scaled by done.
    replace (cos a * cos a + sin a * sin a) with 1.
    - rewrite sqrt_1. unfold d. rewrite Rmult_1_r. f_equal. ring.
    - pose proof (sin_cos_sq a). lra. }
  unfold Effects.rotate_star.
  destruct (String.eqb mode "cw"); [by split; [apply Hrot|]|].
  destruct (String.eqb mode "ccw"); [by split; [apply Hrot|]|].
  done.
Qed.

Lemma push_adds_distance speed cx cy s :
  0 <= speed * Star.z s ->
  (0 < dist cx cy s ->
     dist cx cy (Effects.push_star speed cx cy s) = dist cx cy s + speed * Star.z s)
  /\ (dist cx cy s = 0 -> Effects.push_star speed cx cy s = s)
  /\ Star.z (Effects.push_star speed cx cy s) = Star.z s
  /\ Star.size (Effects.push_star speed cx cy s) = Star.size s.
Proof.
  intros Hsz. unfold Effects.push_star. fold (dist cx cy s).
  destruct (Rlt_dec 0 (dist cx cy s)) as [Hd|Hd].
  - split; [|split; [lra|done]]. intros _.
    unfold dist at 1. cbn [Star.x Star.y].
    set (dx := Star.x s - cx). set (dy := Star.y s - cy).
    assert (Hdd : sqrt (dx * dx + dy * dy) = dist cx cy s) by reflexivity.
    generalize dependent (dist cx cy s). intros d Hd Hdd.
    set (k := 1 + speed * Star.z s / d).
    assert (Hk : 0 <= k).
    { unfold k. assert (0 <= speed * Star.z s / d); [|lra].
      apply Rmult_le_pos; [done|]. left. by apply Rinv_0_lt_compat. }
    assert (Ex : Star.x s + dx / d * speed * Star.z s - cx = k * dx).
    { unfold k, dx. field. lra. }
    assert (Ey : Star.y s + dy / d * speed * Star.z s - cy = k * dy).
    { unfold k, dy. field. lra. }
    rewrite Ex, Ey, sqrt_scaled, Hdd by done.
    unfold k. field. lra.
  - split; [lra|]. done.
Qed.

(** X22: for a non-negative volume intensity and a star of non-negative
    depth, one update either reseeds the star near the centre (with its
    size kept), or leaves depth and size alone and moves the star away
    from the canvas centre by exactly [speed * z], whatever the rotation
    mode; a star sitting exactly on the centre stays there. *)
Theorem star_moves_outward atan2 (width height : Z) (volume_intensity : R)
    (rotation_mode : string) (draws : R * R * R) (star : Star.t) :
  0 <= volume_intensity -> 0 <= Star.z star ->
  let speed := 0.5 + volume_intensity * 5.5 in
  let cx := IZR width / 2 in
  let cy := IZR height / 2 in
  let star' :=
    Effects.update_star atan2 width height volume_intensity rotation_mode draws star in
  star' = Star.mk (cx + draws.1.1 * 50) (cy + draws.1.2 * 50) (draws.2 * 2)
                  (Star.size star)
  \/ (Star.z star' = Star.z star
      /\ Star.size star' = Star.size star
      /\ (0 < dist cx cy star ->
          dist cx cy star' = dist cx cy star + speed * Star.z star)
      /\ (dist cx cy star = 0 -> dist cx cy star' = 0)).
Proof.
  intros Hv Hz speed cx cy star'. subst star'.
  destruct (rotate_keeps_distance atan2 speed cx cy rotation_mode star)
    as (Hd & Hz' & Hs').
  unfold Effects.update_star. cbv zeta. fold speed cx cy.
  set (rot := Effects.rotate_star atan2 speed cx cy rotation_mode star) in *.
  assert (Hsz : 0 <= speed * Star.z rot).
  { rewrite Hz'. unfold speed. nra. }
  destruct (push_adds_distance speed cx cy rot Hsz) as (Hpos & Hzero & Hz2 & Hs2).
  set (moved := Effects.push_star speed cx cy rot) in *.
  destruct draws as [[r1 r2] r3].
  destruct (Effects.off_canvas width height moved).
  - left. cbn [fst snd]. by rewrite Hs2, Hs'.
  - right. split; [congruence|]. split; [congruence|]. split.
    + intros H. rewrite Hpos by lra. by rewrite Hd, Hz'.
    + intros H. rewrite Hzero by lra. lra.
Qed.

Lemma star_moves_outward_witness :
  0 <= 1 /\ 0 <= Star.z Sample.star
  /\ (Effects.update_star (fun _ _ => 0) 1280 720 1 "cw" (0, 0, 1 / 2) Sample.star
      = Star.mk (IZR 1280 / 2 + 0 * 50) (IZR 720 / 2 + 0 * 50) (1 / 2 * 2)
                (Star.size Sample.star)
      \/ Star.size (Effects.update_star (fun _ _ => 0) 1280 720 1 "cw" (0, 0, 1 / 2)
                      Sample.star)
         = Star.size Sample.star).
Proof.
  assert (Hv : 0 <= 1) by lra.
  assert (Hz : 0 <= Star.z Sample.star) by (simpl; lra).
  split; [exact Hv|]. split; [exact Hz|].
  destruct (star_moves_outward (fun _ _ => 0) 1280 720 1 "cw" (0, 0, 1 / 2)
              Sample.star Hv Hz) as [H|(_ & H & _)].
  - left. exact H.
  - right. exact H.
Defined.

(** X23: if the random depths drawn lie in [0, 1) and every star of the
    pool has a depth in [0, 2], then after an update the pool has the same
    number of stars, every star has kept its size, and every depth is
    still in [0, 2]. *)
Theorem starfield_pool_invariant atan2 (width height : Z) (volume_intensity : R)
    (rotation_mode : string) (draws : nat -> R * R * R) (stars : list Star.t) :
  (forall i, 0 <= (draws i).2 < 1) ->
  Forall (fun s => 0 <= Star.z s <= 2) stars ->
  let stars' :=
    Effects.update_starfield atan2 width height volume_intensity rotation_mode
      draws stars in
  length stars' = length stars
  /\ map Star.size stars' = map Star.size stars
  /\ Forall (fun s => 0 <= Star.z s <= 2) stars'.
Proof.
  intros Hdraw Hz stars'. subst stars'. unfold Effects.update_starfield.
  assert (Hone : forall i s, 0 <= Star.z s <= 2 ->
    let s' := Effects.update_star atan2 width height volume_intensity rotation_mode
                (draws i) s in
    Star.size s' = Star.size s /\ 0 <= Star.z s' <= 2).
  { intros i s Hs. unfold Effects.update_star. cbv zeta.
    set (speed := 0.5 + volume_intensity * 5.5).
    set (cx := IZR width / 2). set (cy := IZR height / 2).
    destruct (rotate_keeps_distance atan2 speed cx cy rotation_mode s)
      as (_ & Hz1 & Hs1).
    set (rot := Effects.rotate_star atan2 speed cx cy rotation_mode s) in *.
    assert (Hpz : Star.z (Effects.push_star speed cx cy rot) = Star.z rot
                  /\ Star.size (Effects.push_star speed cx cy rot) = Star.size rot).
    { unfold Effects.push_star. by destruct (Rlt_dec _ _). }
    destruct Hpz as [Hz2 Hs2]. specialize (Hdraw i).
    destruct (draws i) as [[r1 r2] r3]. simpl in Hdraw.
    destruct (Effects.off_canvas _ _ _); simpl.
    - split; [congruence|lra].
    - split; [congruence|]. rewrite Hz2, Hz1. done. }
  split; [by rewrite length_imap|]. split.
  - apply list_eq. intros i. change (map ?f ?l) with (f <$> l).
    rewrite !list_lookup_fmap, list_lookup_imap.
    destruct (stars !! i) as [s|] eqn:Hi; [|done]. simpl. f_equal.
    apply Hone. by eapply (proj1 (Forall_lookup _ _) Hz).
  - apply Forall_lookup. intros i s' Hi'. rewrite list_lookup_imap in Hi'.
    destruct (stars !! i) as [s|] eqn:Hi; [|done]. simpl in Hi'. injection Hi' as <-.
    apply Hone. by eapply (proj1 (Forall_lookup _ _) Hz).
Qed.

Lemma starfield_pool_invariant_witness :
  (forall i : nat, 0 <= ((fun _ : nat => (0, 0, 1 / 2)) i).2 < 1)
  /\ Forall (fun s => 0 <= Star.z s <= 2) [Sample.star; Sample.edge_star]
  /\ length (Effects.update_starfield (fun _ _ => 0) 1280 720 1 "ccw"
               (fun _ => (0, 0, 1 / 2)) [Sample.star; Sample.edge_star])
     = 2%nat.
Proof.
  assert (Hd : forall i : nat, 0 <= ((fun _ : nat => (0, 0, 1 / 2)) i).2 < 1)
    by (intros _; simpl; lra).
  assert (Hs : Forall (fun s => 0 <= Star.z s <= 2) [Sample.star; Sample.edge_star]).
  { repeat (apply Forall_cons; split); try (by apply Forall_nil); simpl; lra. }
  split; [exact Hd|]. split; [exact Hs|].
  exact (proj1 (starfield_pool_invariant (fun _ _ => 0) 1280 720 1 "ccw"
                  (fun _ => (0, 0, 1 / 2)) [Sample.star; Sample.edge_star] Hd Hs)).
Defined.

End StarField.
